(** * subgit: fetching one subfolder of a GitHub repository

    A shallow embedding of [app.py] and the properties of its
    specification.  The program parses a repository URL, lists the
    recursive git tree of a branch, keeps the blobs below a subfolder,
    fetches every one of them concurrently and writes it under a local
    root directory.

    Layout of the development:
    - [Str], [Urllib], [OsPath]: the Python library functions the program
      calls, as far as the program depends on them;
    - exceptions, the result type and the state of a run;
    - the program itself, function by function, under the names of the
      source;
    - lemmas and the properties of the specification. *)

From Stdlib Require Import Ascii.
From stdpp Require Import gmap strings list pretty.

(** ** Python [str] methods *)

Module Str.

(** [s.lstrip(c)] for a one-character set. *)
Fixpoint lstrip (c : ascii) (s : string) : string :=
  match s with
  | String a s' => if Ascii.eqb a c then lstrip c s' else s
  | EmptyString => EmptyString
  end.

(** [s.rstrip(c)]. *)
Fixpoint rstrip (c : ascii) (s : string) : string :=
  match s with
  | EmptyString => EmptyString
  | String a s' =>
      match rstrip c s' with
      | EmptyString => if Ascii.eqb a c then EmptyString else String a EmptyString
      | r => String a r
      end
  end.

(** [s.strip(c)]: both ends. *)
Definition strip (c : ascii) (s : string) : string := rstrip c (lstrip c s).

(** [s.split(c)]: the pieces between occurrences of [c]; empty pieces are
    kept and the result is never the empty list. *)
Fixpoint split (c : ascii) (s : string) : list string :=
  match s with
  | EmptyString => [EmptyString]
  | String a s' =>
      if Ascii.eqb a c then EmptyString :: split c s'
      else match split c s' with
           | w :: ws => String a w :: ws
           | [] => [String a EmptyString]
           end
  end.

(** [sep.join(l)]. *)
Fixpoint join (sep : string) (l : list string) : string :=
  match l with
  | [] => ""
  | [x] => x
  | x :: xs => x +:+ sep +:+ join sep xs
  end.

(** [s.startswith(p)]. *)
Fixpoint startswith (s p : string) {struct p} : bool :=
  match p, s with
  | EmptyString, _ => true
  | String b p', String a s' => Ascii.eqb a b && startswith s' p'
  | String _ _, EmptyString => false
  end.

(** [s[n:]]. *)
Fixpoint drop (n : nat) (s : string) : string :=
  match n, s with
  | S n', String _ s' => drop n' s'
  | _, _ => s
  end.

(** [c in s]. *)
Fixpoint contains (c : ascii) (s : string) : bool :=
  match s with
  | EmptyString => false
  | String a s' => Ascii.eqb a c || contains c s'
  end.

(** [s.partition(c)], when [c] occurs: the text before and after the
    first occurrence, that is [s[:i]] and [s[i+1:]] for [i = s.find(c)]. *)
Fixpoint partition (c : ascii) (s : string) : option (string * string) :=
  match s with
  | EmptyString => None
  | String a s' =>
      if Ascii.eqb a c then Some (EmptyString, s')
      else match partition c s' with
           | Some (l, r) => Some (String a l, r)
           | None => None
           end
  end.

(** The prefix of [s] before the first character satisfying [P], and the
    rest of [s] from that character on. *)
Fixpoint take_until (P : ascii → bool) (s : string) : string :=
  match s with
  | EmptyString => EmptyString
  | String a s' => if P a then EmptyString else String a (take_until P s')
  end.

Fixpoint drop_until (P : ascii → bool) (s : string) : string :=
  match s with
  | EmptyString => EmptyString
  | String a s' => if P a then s else drop_until P s'
  end.

Fixpoint all (P : ascii → bool) (s : string) : bool :=
  match s with
  | EmptyString => true
  | String a s' => P a && all P s'
  end.

Fixpoint remove (P : ascii → bool) (s : string) : string :=
  match s with
  | EmptyString => EmptyString
  | String a s' => if P a then remove P s' else String a (remove P s')
  end.

Fixpoint lstrip_if (P : ascii → bool) (s : string) : string :=
  match s with
  | String a s' => if P a then lstrip_if P s' else s
  | EmptyString => EmptyString
  end.

Definition code (a : ascii) : nat := nat_of_ascii a.

Definition is_upper (a : ascii) : bool := (65 <=? code a) && (code a <=? 90).
Definition is_lower (a : ascii) : bool := (97 <=? code a) && (code a <=? 122).
Definition is_digit (a : ascii) : bool := (48 <=? code a) && (code a <=? 57).
Definition is_alpha (a : ascii) : bool := is_upper a || is_lower a.

Definition lower_char (a : ascii) : ascii :=
  if is_upper a then ascii_of_nat (code a + 32) else a.

Fixpoint lower (s : string) : string :=
  match s with
  | EmptyString => EmptyString
  | String a s' => String (lower_char a) (lower s')
  end.

End Str.

(** ** [urllib.parse.urlparse], as far as its [path] component

    Follows CPython's [urlsplit] and [urlparse]: leading control characters
    and spaces are stripped, tabs and newlines removed, the scheme is split
    at the first colon, the authority runs from [//] to the first of
    [/ ? #], then fragment, query and (for the schemes that use them) the
    parameters of the last segment are cut off.  The validation of
    bracketed (IPv6) hosts is not part of this model. *)

Module Urllib.

Definition c0_control_or_space (a : ascii) : bool := Str.code a <=? 32.

Definition unsafe_byte (a : ascii) : bool :=
  Ascii.eqb a "009" || Ascii.eqb a "010" || Ascii.eqb a "013".

Definition scheme_char (a : ascii) : bool :=
  Str.is_alpha a || Str.is_digit a
  || Ascii.eqb a "+" || Ascii.eqb a "-" || Ascii.eqb a ".".

Definition uses_params : list string :=
  [""; "ftp"; "hdl"; "prospero"; "http"; "imap"; "https"; "shttp"; "rtsp";
   "rtspu"; "sip"; "sips"; "mms"; "sftp"; "tel"].

Definition netloc_delim (a : ascii) : bool :=
  Ascii.eqb a "/" || Ascii.eqb a "?" || Ascii.eqb a "#".

(** The scheme and what follows it. *)
Definition split_scheme (url : string) : string * string :=
  match Str.partition ":" url with
  | Some (String a pre, rest) =>
      if Str.is_alpha a && Str.all scheme_char (String a pre)
      then (Str.lower (String a pre), rest)
      else ("", url)
  | _ => ("", url)
  end.

(** [_splitparams]: cut at the first [;] after the last [/]. *)
Fixpoint splitparams (url : string) : string :=
  match url with
  | EmptyString => EmptyString
  | String a s' =>
      if Str.contains "/" s' then String a (splitparams s')
      else if Ascii.eqb a "/" then String a (Str.take_until (Ascii.eqb ";") s')
      else Str.take_until (Ascii.eqb ";") url
  end.

Record ParseResult := {
  scheme : string;
  netloc : string;
  path : string
}.

Definition urlparse (url : string) : ParseResult :=
  let url := Str.lstrip_if c0_control_or_space url in
  let url := Str.remove unsafe_byte url in
  let '(scheme, url) := split_scheme url in
  let '(netloc, url) :=
    if Str.startswith url "//"
    then let r := Str.drop 2 url in
         (Str.take_until netloc_delim r, Str.drop_until netloc_delim r)
    else ("", url) in
  let url := Str.take_until (Ascii.eqb "#") url in
  let url := Str.take_until (Ascii.eqb "?") url in
  let url :=
    if bool_decide (scheme ∈ uses_params) && Str.contains ";" url
    then splitparams url else url in
  {| scheme := scheme; netloc := netloc; path := url |}.

End Urllib.

(** ** Exceptions and results *)

(** The exception classes that occur in a run.  [ClientConnectorError]
    derives from [ClientError] in aiohttp; [TimeoutError] stands for the
    errors a request can raise that are not [ClientError]s. *)
Inductive exn_class :=
  | IndexError
  | ClientError
  | ClientConnectorError
  | TimeoutError
  | FileNotFoundError
  | FileExistsError
  | NotADirectoryError
  | IsADirectoryError
  | AttributeError.

Global Instance exn_class_eq_dec : EqDecision exn_class.
Proof. solve_decision. Defined.

Record exn := Exn { cls : exn_class; msg : string }.

Global Instance exn_eq_dec : EqDecision exn.
Proof. solve_decision. Defined.

(** [isinstance(e, c)]: the class of [e] is [c] or derives from it. *)
Definition isinstance (e : exn) (c : exn_class) : bool :=
  bool_decide (cls e = c)
  || (bool_decide (cls e = ClientConnectorError) && bool_decide (c = ClientError)).

Inductive result (A : Type) :=
  | Returned (a : A)
  | Raised (e : exn).
Arguments Returned {A} a.
Arguments Raised {A} e.

(** [l[i]] for a constant index [i >= 0]. *)
Definition getitem {A} (l : list A) (i : nat) : result A :=
  match l !! i with
  | Some x => Returned x
  | None => Raised (Exn IndexError "list index out of range")
  end.

Global Instance result_ret : MRet result := @Returned.
Global Instance result_bind : MBind result := λ A B k r,
  match r with
  | Returned a => k a
  | Raised e => Raised e
  end.

(** ** The Repository Locator *)

Definition parse_github_url (url : string) : result (string * string * string) :=
  let parsed_url := Urllib.urlparse url in
  let path_parts := Str.split "/" (Str.strip "/" (Urllib.path parsed_url)) in
  p0 ← getitem path_parts 0;
  p1 ← getitem path_parts 1;
  let reponame := p0 +:+ "/" +:+ p1 in
  branch ← getitem path_parts 3;
  let subfolder := Str.join "/" (drop 4 path_parts) in
  mret (reponame, branch, subfolder).

(** ** [os.path] (POSIX) *)

Module OsPath.

Fixpoint endswith_slash (s : string) : bool :=
  match s with
  | EmptyString => false
  | String a EmptyString => Ascii.eqb a "/"
  | String _ s' => endswith_slash s'
  end.

(** [os.path.join(a, p)]: an absolute [p] replaces [a]; otherwise the two
    are put together with one separator, unless [a] is empty or already
    ends with one. *)
Definition join (a p : string) : string :=
  if Str.startswith p "/" then p
  else if bool_decide (a = "") || endswith_slash a then a +:+ p
  else a +:+ "/" +:+ p.

(** [p[:p.rfind('/') + 1]]. *)
Fixpoint head (p : string) : string :=
  match p with
  | EmptyString => EmptyString
  | String a s' =>
      if Str.contains "/" s' then String a (head s')
      else if Ascii.eqb a "/" then String a EmptyString
      else EmptyString
  end.

(** [os.path.dirname(p)]. *)
Definition dirname (p : string) : string :=
  let h := head p in
  if negb (bool_decide (h = "")) && negb (Str.all (Ascii.eqb "/") h)
  then Str.rstrip "/" h else h.

(** The directories [os.makedirs(name)] goes through: [name] and the
    directories above it, outermost first. *)
Definition lineage (name : string) : list string :=
  let parts := Str.split "/" name in
  filter (λ d, d ≠ "")
    (map (λ k, Str.join "/" (take k parts)) (seq 1 (length parts))).

End OsPath.

(** ** The state of a run *)

(** The progress bar: [tqdm(total=..)], its counter [n], [update] and
    [close]. *)
Record tqdm := Tqdm { total : nat; n : nat; closed : bool }.

Definition headers_t := list (string * string).

Record GithubFetcher := Fetcher {
  reponame : string;
  branch : string;
  subfolder : string;
  root_dir : string;
  total_files : nat;
  progress_bar : option tqdm;
  verify_ssl : bool;
  pat_token : option string;
  headers : headers_t
}.

(** A GET request as the program issues it. *)
Record request := Request {
  req_url : string;
  req_ssl : bool;
  req_headers : headers_t
}.

(** What is outside the program and changed by it: regular files with
    their content, directories, the lines printed, the requests sent (most
    recent first). *)
Record world := World {
  files : gmap string string;
  dirs : gset string;
  stdout : list string;
  requests : list request
}.

Record state := State { self : GithubFetcher; env : world }.

(** An entry of the tree listing, [{"path": .., "type": ..}]. *)
Record item := Item { path : string; type : string }.

Global Instance item_eq_dec : EqDecision item.
Proof. solve_decision. Defined.

(** What a GET comes back with: a response with its status and body, or
    an exception raised by the client. *)
Inductive http (A : Type) :=
  | Response (status : Z) (body : A)
  | Failure (e : exn).
Arguments Response {A} status body.
Arguments Failure {A} e.

(** The remote side: the tree API (its JSON body read as the list under
    ["tree"]) and the raw-content host. *)
Record network := Network {
  api : request → http (list item);
  raw : request → http string
}.

(** Computations that change the state and may raise. *)
Definition M (A : Type) : Type := state → result A * state.

Global Instance M_ret : MRet M := λ A a st, (Returned a, st).
Global Instance M_bind : MBind M := λ A B k m st,
  match m st with
  | (Returned a, st') => k a st'
  | (Raised e, st') => (Raised e, st')
  end.

Definition raise {A} (e : exn) : M A := λ st, (Raised e, st).

(** [try: m  except ..: h]: [h e] is [None] when no clause matches [e]. *)
Definition try_except {A} (m : M A) (h : exn → option (M A)) : M A := λ st,
  match m st with
  | (Raised e, st') =>
      match h e with
      | Some k => k st'
      | None => (Raised e, st')
      end
  | r => r
  end.

Definition get_self : M GithubFetcher := λ st, (Returned (self st), st).

Definition set_self (f : GithubFetcher → GithubFetcher) : M unit := λ st,
  (Returned tt, State (f (self st)) (env st)).

Definition set_env (f : world → world) : M unit := λ st,
  (Returned tt, State (self st) (f (env st))).

(** The world after one more line on standard output, after one more
    request, with other files or directories. *)
Definition printed (line : string) (w : world) : world :=
  World (files w) (dirs w) (stdout w ++ [line]) (requests w).

Definition sent (rq : request) (w : world) : world :=
  World (files w) (dirs w) (stdout w) (rq :: requests w).

Definition with_files (fs : gmap string string) (w : world) : world :=
  World fs (dirs w) (stdout w) (requests w).

Definition with_dirs (ds : gset string) (w : world) : world :=
  World (files w) ds (stdout w) (requests w).

(** Attribute assignment on the fetcher: [self.total_files = k] and
    [self.progress_bar = b]. *)
Definition with_total_files (k : nat) (f : GithubFetcher) : GithubFetcher :=
  Fetcher (reponame f) (branch f) (subfolder f) (root_dir f) k (progress_bar f)
    (verify_ssl f) (pat_token f) (headers f).

Definition with_progress_bar (b : option tqdm) (f : GithubFetcher) : GithubFetcher :=
  Fetcher (reponame f) (branch f) (subfolder f) (root_dir f) (total_files f) b
    (verify_ssl f) (pat_token f) (headers f).

Definition print (line : string) : M unit := set_env (printed line).

(** [session.get(url, ssl=.., headers=..)] up to the response. *)
Definition session_get {A} (server : request → http A)
    (url : string) (ssl : bool) (hs : headers_t) : M (Z * A) :=
  let rq := Request url ssl hs in
  set_env (sent rq);;
  match server rq with
  | Response status body => mret (status, body)
  | Failure e => raise e
  end.

(** [os.makedirs(name, exist_ok=True)]. *)
Definition makedirs (name : string) : M unit := λ st,
  let w := env st in
  if bool_decide (name = "")
  then (Raised (Exn FileNotFoundError name), st)
  else if bool_decide (is_Some (files w !! name))
  then (Raised (Exn FileExistsError name), st)
  else if bool_decide (Exists (λ d, is_Some (files w !! d)) (OsPath.lineage name))
  then (Raised (Exn NotADirectoryError name), st)
  else (Returned tt,
        State (self st)
          (with_dirs (dirs w ∪ list_to_set (OsPath.lineage name)) w)).

(** [with open(p, 'w') as file: file.write(content)]. *)
Definition open_write (p content : string) : M unit := λ st,
  let w := env st in
  if bool_decide (p ∈ dirs w)
  then (Raised (Exn IsADirectoryError p), st)
  else (Returned tt,
        State (self st) (with_files (<[p := content]> (files w)) w)).

(** Truth value of an optional string: [None] and [""] are false. *)
Definition truthy (o : option string) : bool :=
  match o with
  | Some (String _ _) => true
  | _ => false
  end.

(** ** The program *)

(** [GithubFetcher.__init__]. *)
Definition init (reponame branch subfolder root_dir : string)
    (verify_ssl : bool) (pat_token : option string) : GithubFetcher :=
  Fetcher reponame branch subfolder root_dir 0 None verify_ssl pat_token
    (if truthy pat_token
     then [("Authorization", "token " +:+ default "" pat_token)]
     else []).

Definition raw_url (f : GithubFetcher) (filepath : string) : string :=
  "https://raw.githubusercontent.com/" +:+ reponame f +:+ "/refs/heads/"
  +:+ branch f +:+ "/" +:+ filepath.

Definition tree_url (f : GithubFetcher) : string :=
  "https://api.github.com/repos/" +:+ reponame f +:+ "/git/trees/"
  +:+ branch f +:+ "?recursive=1".

(** The requests of the two GETs, with the fetcher's TLS flag and headers. *)
Definition file_request (f : GithubFetcher) (filepath : string) : request :=
  Request (raw_url f filepath) (verify_ssl f) (headers f).

Definition tree_request (f : GithubFetcher) : request :=
  Request (tree_url f) (verify_ssl f) (headers f).

(** The clauses of the two [try] statements, in the order of the source;
    the second clause can never be the one taken, since a
    [ClientConnectorError] is a [ClientError]. *)
Definition except_client {A} (on_client on_connector : exn → M A)
    (e : exn) : option (M A) :=
  if isinstance e ClientError then Some (on_client e)
  else if isinstance e ClientConnectorError then Some (on_connector e)
  else None.

Definition get_file_content (net : network) (filepath : string)
    : M (option string) :=
  f ← get_self;
  let url := raw_url f filepath in
  try_except
    ('(status, body) ← session_get (raw net) url (verify_ssl f) (headers f);
     if bool_decide (status = 200%Z)
     then mret (Some body)
     else print ("Error " +:+ pretty status +:+ " for " +:+ url);; mret None)
    (except_client
       (λ e, print ("Error fetching " +:+ url +:+ ": " +:+ msg e);; mret None)
       (λ e, print ("Connection error for " +:+ url +:+ ": " +:+ msg e);;
             mret None)).

Definition save_file_content (filepath content : string) : M unit :=
  f ← get_self;
  let full_path := OsPath.join (root_dir f) filepath in
  makedirs (OsPath.dirname full_path);;
  open_write full_path content.

(** [self.progress_bar.update(1)]. *)
Definition progress_bar_update (k : nat) : M unit :=
  f ← get_self;
  match progress_bar f with
  | Some bar =>
      set_self (with_progress_bar (Some (Tqdm (total bar) (n bar + k) (closed bar))))
  | None => raise (Exn AttributeError "'NoneType' object has no attribute 'update'")
  end.

Definition progress_bar_close : M unit :=
  f ← get_self;
  match progress_bar f with
  | Some bar =>
      set_self (with_progress_bar (Some (Tqdm (total bar) (n bar) true)))
  | None => raise (Exn AttributeError "'NoneType' object has no attribute 'close'")
  end.

(** [process_file] is suspended once, at [await self.get_file_content]:
    what runs when the answer arrives is [process_file_resume]. *)
Definition process_file_resume (it : item) (content : option string) : M bool :=
  let filepath := path it in
  (if truthy content
   then save_file_content filepath (default "" content)
   else mret tt);;
  progress_bar_update 1;;
  mret true.

Definition process_file (net : network) (it : item) : M bool :=
  let filepath := path it in
  content ← get_file_content net filepath;
  process_file_resume it content.

(** A coroutine of [process_file] inside [asyncio.gather]. *)
Inductive task :=
  | Pending (it : item)
  | Fetched (it : item) (content : option string)
  | Done (r : bool).

(** One turn of the event loop for the task at index [i]: a pending task
    receives its answer, a task holding its answer runs to its end.  A
    finished task, or an index outside the batch, is no turn at all. *)
Definition turn (net : network) (i : nat) (tasks : list task) : M (list task) :=
  match tasks !! i with
  | Some (Pending it) =>
      content ← get_file_content net (path it);
      mret (<[i := Fetched it content]> tasks)
  | Some (Fetched it content) =>
      r ← process_file_resume it content;
      mret (<[i := Done r]> tasks)
  | _ => mret tasks
  end.

(** The loop takes its turns in the order of a schedule. *)
Fixpoint turns (net : network) (sched : list nat) (tasks : list task)
    : M (list task) :=
  match sched with
  | [] => mret tasks
  | i :: sched' => tasks' ← turn net i tasks; turns net sched' tasks'
  end.

(** A task needs two turns; [settle k] gives two to each of [k] tasks. *)
Definition settle (k : nat) : list nat := flat_map (λ i, [i; i]) (seq 0 k).

(** The results of the finished tasks, in the order of the tasks. *)
Definition results (tasks : list task) : list bool :=
  omap (λ t, match t with Done r => Some r | _ => None end) tasks.

(** [await asyncio.gather] of the tasks: the loop interleaves them as
    [sched] says and then runs whatever is unfinished to its end, for
    [gather] waits for every task.  The first exception of a task is the
    exception of [gather]. *)
Definition gather (net : network) (sched : list nat) (tasks : list task)
    : M (list bool) :=
  tasks' ← turns net (sched ++ settle (length tasks)) tasks;
  mret (results tasks').

Definition files_to_fetch (subfolder : string) (tree : list item) : list item :=
  filter (λ it, Str.startswith (path it) subfolder && bool_decide (type it = "blob"))
    tree.

Definition fetch_files (net : network) (sched : list nat) : M unit :=
  f ← get_self;
  let url := tree_url f in
  try_except
    ('(status, tree) ← session_get (api net) url (verify_ssl f) (headers f);
     if bool_decide (status = 200%Z)
     then
       let files := files_to_fetch (subfolder f) tree in
       set_self (with_total_files (length files));;
       if bool_decide (length files = 0)
       then print "No files found matching the criteria."
       else
         set_self (λ f, with_progress_bar (Some (Tqdm (total_files f) 0 false)) f);;
         let tasks := map Pending files in
         gather net sched tasks;;
         progress_bar_close
     else print ("Error " +:+ pretty status +:+ " for " +:+ url))
    (except_client
       (λ e, print ("Error fetching tree: " +:+ msg e))
       (λ e, print ("Connection error for tree: " +:+ msg e))).

(** [main], started in the world [w]: the outcome and the world it leaves. *)
Definition main (net : network) (sched : list nat)
    (url root_dir : string) (verify_ssl : bool) (pat_token : option string)
    (w : world) : result unit * world :=
  match parse_github_url url with
  | Returned (reponame, branch, subfolder) =>
      let fetcher := init reponame branch subfolder root_dir verify_ssl pat_token in
      let '(r, st) := fetch_files net sched (State fetcher w) in
      (r, env st)
  | Raised e => (Raised e, w)
  end.

(** The exit status of [asyncio.run(main(..))] as the last statement of
    the script: 0 when [main] returns, 1 when an exception reaches the top. *)
Definition exit_status {A} (r : result A) : Z :=
  match r with
  | Returned _ => 0
  | Raised _ => 1
  end.

(** ** Repository URLs

    The URLs the program is meant for have the shape
    [https://<host>/<owner>/<repo>/tree/<branch>/<subfolder...>]: a host
    and a list of path segments, none of them empty, none containing a
    separator of URL syntax. *)

Definition path_char (a : ascii) : bool :=
  negb (Ascii.eqb "?" a) && negb (Ascii.eqb "#" a) && negb (Ascii.eqb ";" a)
  && negb (Urllib.unsafe_byte a).

Definition seg_char (a : ascii) : bool := path_char a && negb (Ascii.eqb a "/").

Definition host_char (a : ascii) : bool :=
  negb (Urllib.netloc_delim a) && negb (Urllib.unsafe_byte a).

Definition segment (s : string) : Prop := s ≠ "" ∧ Str.all seg_char s = true.

Definition hostname (h : string) : Prop := Str.all host_char h = true.

Definition repo_url (host : string) (segs : list string) : string :=
  "https://" +:+ host +:+ "/" +:+ Str.join "/" segs.

(** [path_parts] of the source, as a function of the URL. *)
Definition url_path_parts (url : string) : list string :=
  Str.split "/" (Str.strip "/" (Urllib.path (Urllib.urlparse url))).

(** ** The selection of the Tree Resolver, in the words of the specification

    "Retain only entries where [type == "blob"] and [path] starts with
    [subfolder_path]." *)

Definition starts_with (p s : string) : Prop := ∃ rest, s = p +:+ rest.

Definition retained (subfolder_path : string) (it : item) : Prop :=
  type it = "blob" ∧ starts_with subfolder_path (path it).

Definition example_tree : list item :=
  [Item "src/a.py" "blob"; Item "src/lib/b.py" "blob";
   Item "docs/c.md" "blob"; Item "src/lib" "tree"].

(** ** Words of the specification about fetching and persisting *)

(** The answer the raw-content host gives for a file. *)
Definition answer (net : network) (f : GithubFetcher) (filepath : string)
    : http string :=
  raw net (file_request f filepath).

(** "A non-200 status or a transport-level connection failure": the
    failures of a request that belong to aiohttp's [ClientError]. *)
Definition fetch_failure {A} (r : http A) : Prop :=
  match r with
  | Response status _ => status ≠ 200%Z
  | Failure e => isinstance e ClientError = true
  end.

(** The diagnostic printed for such a failure of the request for [url]. *)
Definition file_diagnostic {A} (url : string) (r : http A) : string :=
  match r with
  | Response status _ => "Error " +:+ pretty status +:+ " for " +:+ url
  | Failure e => "Error fetching " +:+ url +:+ ": " +:+ msg e
  end.

(** Where the content of [filepath] is written. *)
Definition destination (f : GithubFetcher) (filepath : string) : string :=
  OsPath.join (root_dir f) filepath.

(** The directories a destination needs. *)
Definition ancestors (full_path : string) : list string :=
  OsPath.dirname full_path :: OsPath.lineage (OsPath.dirname full_path).

(** A destination the Persistence Writer can write without an error of the
    file system: it has a directory part, no directory it needs is a
    regular file, and it is not a directory itself. *)
Definition writable (w : world) (full_path : string) : Prop :=
  OsPath.dirname full_path ≠ ""
  ∧ Forall (λ d, files w !! d = None) (ancestors full_path)
  ∧ (full_path ∉ dirs w)
  ∧ (full_path ∉ OsPath.lineage (OsPath.dirname full_path)).

(** A file system that raises no error when the batch [dests] is written:
    every destination has a directory part, is not a directory itself, and
    no directory it needs is a regular file or another destination. *)
Definition benign (w : world) (dests : list string) : Prop :=
  Forall (λ q, OsPath.dirname q ≠ "" ∧ (q ∉ dirs w)
               ∧ Forall (λ d, files w !! d = None ∧ (d ∉ dests)) (ancestors q))
    dests.

(** A path that [os.path.join] puts below the root directory. *)
Definition relative (filepath : string) : Prop :=
  Str.startswith filepath "/" = false.

(** How many tasks of a batch have run to their end. *)
Definition is_done (t : task) : bool :=
  match t with
  | Done _ => true
  | _ => false
  end.

Fixpoint done_count (tasks : list task) : nat :=
  match tasks with
  | [] => 0
  | t :: tasks' => (if is_done t then 1 else 0) + done_count tasks'
  end.

(** How far a task has come: 0 turns, 1 turn, or both. *)
Definition rank (t : task) : nat :=
  match t with
  | Pending _ => 0
  | Fetched _ _ => 1
  | Done _ => 2
  end.

(** The diagnostic [fetch_files] prints when the tree query fails. *)
Definition tree_diagnostic {A} (url : string) (r : http A) : string :=
  match r with
  | Response status _ => "Error " +:+ pretty status +:+ " for " +:+ url
  | Failure e => "Error fetching tree: " +:+ msg e
  end.

(** A request that is answered, with whatever status, or fails with a
    connection error: the outcomes [get_file_content] takes care of. *)
Definition answered {A} (r : http A) : Prop :=
  match r with
  | Response _ _ => True
  | Failure e => isinstance e ClientError = true
  end.

(** The content the Content Fetcher hands over for an entry. *)
Definition fetched (net : network) (f : GithubFetcher) (it : item)
    : option string :=
  match answer net f (path it) with
  | Response status body =>
      if bool_decide (status = 200%Z) then Some body else None
  | Failure _ => None
  end.

(** The destinations of a batch. *)
Definition destinations (f : GithubFetcher) (items : list item) : list string :=
  map (λ it, destination f (path it)) items.

(** A task of the batch and the entry it was made for. *)
Definition aligned (net : network) (f : GithubFetcher) (t : task) (it : item)
    : Prop :=
  t = Pending it ∨ t = Fetched it (fetched net f it) ∨ t = Done true.

(** What holds between the turns of a batch for [items], started by the
    fetcher [f] in the world [w0]: the fetcher is [f] but for its progress
    bar; the tasks are those of the entries; the content of every finished
    task that had any is in its file; no other file has changed; and the
    directories are the old ones and those made for destinations. *)
Definition batch_inv (net : network) (f : GithubFetcher) (items : list item)
    (w0 : world) (tasks : list task) (st : state) : Prop :=
  (∃ bar, self st = with_progress_bar (Some bar) f)
  ∧ Forall2 (aligned net f) tasks items
  ∧ (∀ i it body,
       items !! i = Some it → tasks !! i = Some (Done true) →
       fetched net f it = Some body → body ≠ "" →
       files (env st) !! destination f (path it) = Some body)
  ∧ (∀ p, p ∉ destinations f items → files (env st) !! p = files w0 !! p)
  ∧ (∀ d, d ∈ dirs (env st) →
       d ∈ dirs w0
       ∨ ∃ q, q ∈ destinations f items
              ∧ d ∈ OsPath.lineage (OsPath.dirname q)).

(** What the handlers of [fetch_files] make of an exception. *)
Definition handled (e : exn) (st : state) : result unit * state :=
  if isinstance e ClientError
  then (Returned tt,
        State (self st) (printed ("Error fetching tree: " +:+ msg e) (env st)))
  else (Raised e, st).

(** ** Words for the further properties *)

(** How often a character occurs in a string. *)
Fixpoint count_char (c : ascii) (s : string) : nat :=
  match s with
  | EmptyString => 0
  | String a s' => (if Ascii.eqb a c then 1 else 0) + count_char c s'
  end.

(** What may follow the path in a URL: a query or a fragment, free of the
    bytes [urlsplit] removes. *)
Definition url_suffix (t : string) : Prop :=
  (Str.startswith t "?" = true ∨ Str.startswith t "#" = true)
  ∧ Str.all (λ a, negb (Urllib.unsafe_byte a)) t = true.

(** A task that has not had its first turn. *)
Definition is_pending (t : task) : bool :=
  match t with
  | Pending _ => true
  | _ => false
  end.

(** What the tasks that have had their first turn have left behind, when
    the task of entry [it] leaves [g it] behind. *)
Fixpoint per_started {B} (g : item → list B)
    (tasks : list task) (items : list item) : list B :=
  match tasks, items with
  | t :: tasks', it :: items' =>
      (if is_pending t then [] else g it) ++ per_started g tasks' items'
  | _, _ => []
  end.

(** The lines [get_file_content] prints for a file: none when the answer
    has status 200, one otherwise. *)
Definition complaint (net : network) (f : GithubFetcher) (filepath : string)
    : list string :=
  match answer net f filepath with
  | Response status _ =>
      if bool_decide (status = 200%Z) then []
      else [file_diagnostic (raw_url f filepath) (answer net f filepath)]
  | Failure _ => [file_diagnostic (raw_url f filepath) (answer net f filepath)]
  end.

(** A task and its entry: a task that is not finished is about this entry,
    and one that has had its first turn got an answer the Content Fetcher
    takes care of. *)
Definition started_for (net : network) (f : GithubFetcher)
    (t : task) (it : item) : Prop :=
  match t with
  | Pending it' => it' = it
  | Fetched it' _ => it' = it ∧ answered (answer net f (path it))
  | Done _ => answered (answer net f (path it))
  end.

(** The record of a batch between its turns: the requests sent and the
    lines printed are, in some order, those of the tasks that have had
    their first turn. *)
Definition log_inv (net : network) (f : GithubFetcher) (items : list item)
    (w0 : world) (tasks : list task) (st : state) : Prop :=
  with_progress_bar None (self st) = with_progress_bar None f
  ∧ Forall2 (started_for net f) tasks items
  ∧ requests (env st)
    ≡ₚ per_started (λ it, [file_request f (path it)]) tasks items ++ requests w0
  ∧ stdout (env st)
    ≡ₚ stdout w0 ++ per_started (λ it, complaint net f (path it)) tasks items.

(** The state in which [fetch_files] starts the batch for [items]. *)
Definition batch_start (st : state) (items : list item) : state :=
  State (with_progress_bar (Some (Tqdm (length items) 0 false))
           (with_total_files (length items) (self st)))
    (sent (tree_request (self st)) (env st)).

(** A small run to try the properties on: the tree of the example, the
    subfolder [src], and a raw-content host that has no [src/a.py]. *)
Definition demo_answer (r : http string) : request → http string := λ rq,
  if bool_decide
       (req_url rq
        = "https://raw.githubusercontent.com/acme/widgets/refs/heads/main/src/a.py")
  then r
  else Response 200 "print('b')".

Definition demo_net : network :=
  Network (λ _, Response 200 example_tree) (demo_answer (Response 404 "Not Found")).

Definition demo_state : state :=
  State (init "acme/widgets" "main" "src" "out" true None) (World ∅ ∅ [] []).

(** A request as a run with these settings sends it: to one of the two
    GitHub hosts, with the TLS flag of the run and, when a token is
    configured, the token as its only header. *)
Definition github_request (verify_ssl : bool) (pat_token : option string)
    (rq : request) : Prop :=
  req_ssl rq = verify_ssl
  ∧ req_headers rq
    = (if truthy pat_token
       then [("Authorization", "token " +:+ default "" pat_token)]
       else [])
  ∧ (starts_with "https://api.github.com/repos/" (req_url rq)
     ∨ starts_with "https://raw.githubusercontent.com/" (req_url rq)).

(** No file has changed but those that some entry of the batch has content
    for. *)
Definition untouched (net : network) (f : GithubFetcher) (items : list item)
    (w0 : world) (st : state) : Prop :=
  ∀ p,
    (∀ it, it ∈ items → destination f (path it) = p →
           truthy (fetched net f it) = false) →
    files (env st) !! p = files w0 !! p.

(** ** Facts about the string functions *)

Section StrFacts.

Implicit Types (c a : ascii) (s t p : string) (P : ascii → bool).

#[local] Arguments String.append !_ _ / : simpl nomatch.

Lemma app_nil_r_str s : s +:+ "" = s.
Proof. induction s as [|a s IH]; simpl; [done | by rewrite IH]. Qed.

Lemma app_assoc_str s t p : (s +:+ t) +:+ p = s +:+ (t +:+ p).
Proof. induction s as [|a s IH]; simpl; [done | by rewrite IH]. Qed.

Lemma app_inv_head_str s t p : s +:+ t = s +:+ p → t = p.
Proof. induction s as [|a s IH]; simpl; [done | intros [= H]; auto]. Qed.

Lemma all_app P s t :
  Str.all P (s +:+ t) = Str.all P s && Str.all P t.
Proof.
  induction s as [|a s IH]; simpl; [done |].
  by rewrite IH, andb_assoc.
Qed.

Lemma all_impl P (Q : ascii → bool) s :
  (∀ a, P a = true → Q a = true) → Str.all P s = true → Str.all Q s = true.
Proof.
  intros HPQ. induction s as [|a s IH]; simpl; [done |].
  intros [Ha Hs]%andb_prop. by rewrite (HPQ _ Ha), IH.
Qed.

Lemma contains_false_all c s :
  Str.all (λ a, negb (Ascii.eqb a c)) s = true → Str.contains c s = false.
Proof.
  induction s as [|a s IH]; simpl; [done |].
  intros [Ha Hs]%andb_prop. apply negb_true_iff in Ha. by rewrite Ha, IH.
Qed.

Lemma contains_app c s t :
  Str.contains c (s +:+ t) = Str.contains c s || Str.contains c t.
Proof.
  induction s as [|a s IH]; simpl; [done |].
  by rewrite IH, orb_assoc.
Qed.

Lemma take_until_none P s :
  Str.all (λ a, negb (P a)) s = true → Str.take_until P s = s.
Proof.
  induction s as [|a s IH]; simpl; [done |].
  intros [Ha Hs]%andb_prop. apply negb_true_iff in Ha. by rewrite Ha, IH.
Qed.

Lemma take_until_app P s a t :
  Str.all (λ a, negb (P a)) s = true → P a = true →
  Str.take_until P (s +:+ String a t) = s.
Proof.
  intros Hs Ha. induction s as [|b s IH]; simpl in *; [by rewrite Ha |].
  apply andb_prop in Hs as [Hb Hs]. apply negb_true_iff in Hb.
  by rewrite Hb, IH.
Qed.

Lemma drop_until_app P s a t :
  Str.all (λ a, negb (P a)) s = true → P a = true →
  Str.drop_until P (s +:+ String a t) = String a t.
Proof.
  intros Hs Ha. induction s as [|b s IH]; simpl in *; [by rewrite Ha |].
  apply andb_prop in Hs as [Hb Hs]. apply negb_true_iff in Hb.
  by rewrite Hb, IH.
Qed.

Lemma remove_none P s :
  Str.all (λ a, negb (P a)) s = true → Str.remove P s = s.
Proof.
  induction s as [|a s IH]; simpl; [done |].
  intros [Ha Hs]%andb_prop. apply negb_true_iff in Ha. by rewrite Ha, IH.
Qed.

(** Splitting. *)

Lemma split_not_nil c s : Str.split c s ≠ [].
Proof.
  destruct s as [|a s]; simpl; [done |].
  destruct (Ascii.eqb a c); [done |]. by destruct (Str.split c s).
Qed.

Lemma split_none c s : Str.contains c s = false → Str.split c s = [s].
Proof.
  induction s as [|a s IH]; simpl; [done |].
  intros [Ha Hs]%orb_false_elim. by rewrite Ha, IH.
Qed.

Lemma split_app c s t :
  Str.contains c s = false →
  Str.split c (s +:+ String c t) = s :: Str.split c t.
Proof.
  induction s as [|a s IH]; simpl.
  - by rewrite Ascii.eqb_refl.
  - intros [Ha Hs]%orb_false_elim. by rewrite Ha, IH.
Qed.

Lemma split_join c (segs : list string) :
  segs ≠ [] →
  Forall (λ s, Str.contains c s = false) segs →
  Str.split c (Str.join (String c "") segs) = segs.
Proof.
  intros Hne Hall. induction Hall as [|s segs Hs Hall IH]; [done |].
  destruct segs as [|s' segs].
  - simpl. by apply split_none.
  - change (Str.join (String c "") (s :: s' :: segs))
      with (s +:+ String c (Str.join (String c "") (s' :: segs))).
    rewrite split_app by done. by rewrite IH.
Qed.

(** Stripping. *)

Lemma rstrip_none c s : Str.contains c s = false → Str.rstrip c s = s.
Proof.
  induction s as [|a s IH]; simpl; [done |].
  intros [Ha Hs]%orb_false_elim. rewrite IH by done.
  destruct s; [by rewrite Ha | done].
Qed.

Lemma rstrip_app c s t :
  Str.rstrip c t ≠ "" → Str.rstrip c (s +:+ t) = s +:+ Str.rstrip c t.
Proof.
  intros Ht. induction s as [|a s IH]; simpl; [done |].
  rewrite IH. destruct (s +:+ Str.rstrip c t) eqn:E; [| done].
  destruct s; simpl in E; [done | discriminate].
Qed.

Lemma join_cons sep s s' (segs : list string) :
  Str.join sep (s :: s' :: segs) = s +:+ sep +:+ Str.join sep (s' :: segs).
Proof. done. Qed.

Lemma join_ne sep s (segs : list string) :
  s ≠ "" → Str.join sep (s :: segs) ≠ "".
Proof. destruct s; [done |]. by destruct segs. Qed.

Lemma rstrip_join c (segs : list string) :
  Forall (λ s, s ≠ "" ∧ Str.contains c s = false) segs →
  Str.rstrip c (Str.join (String c "") segs) = Str.join (String c "") segs.
Proof.
  induction 1 as [|s segs [Hne Hs] Hall IH]; [done |].
  destruct segs as [|s' segs]; [by apply rstrip_none |].
  rewrite join_cons.
  assert (Str.rstrip c (Str.join (String c "") (s' :: segs)) ≠ "") as HJ.
  { rewrite IH. apply join_ne. by apply Forall_cons in Hall as [[? _] _]. }
  assert (Str.rstrip c (String c "" +:+ Str.join (String c "") (s' :: segs))
          = String c "" +:+ Str.join (String c "") (s' :: segs)) as E.
  { rewrite rstrip_app by done. by rewrite IH. }
  rewrite rstrip_app; rewrite E; done.
Qed.

Lemma lstrip_head c a s :
  a ≠ c → Str.lstrip c (String a s) = String a s.
Proof. intros Hne. simpl. by apply Ascii.eqb_neq in Hne as ->. Qed.

(** A prefix test that says what it tests. *)
Lemma startswith_spec s p :
  Str.startswith s p = true ↔ ∃ rest, s = p +:+ rest.
Proof.
  revert s. induction p as [|b p IH]; intros s; simpl.
  - split; [intros _; by exists s | done].
  - destruct s as [|a s].
    + split; [done | by intros [rest [=]]].
    + rewrite andb_true_iff, IH, Ascii.eqb_eq. split.
      * intros [-> [rest ->]]. by exists rest.
      * intros [rest [= -> ->]]. eauto.
Qed.

End StrFacts.

(** ** The Repository Locator on repository URLs *)

Section Locator.

#[local] Arguments String.append !_ _ / : simpl nomatch.

Lemma segment_no_slash s : segment s → Str.contains "/" s = false.
Proof.
  intros [_ Hs]. apply contains_false_all.
  revert Hs. apply all_impl. intros a. unfold seg_char.
  by intros [_ ?]%andb_prop.
Qed.

Lemma segment_path_char s : segment s → Str.all path_char s = true.
Proof.
  intros [_ Hs]. revert Hs. apply all_impl. intros a. unfold seg_char.
  by intros [? _]%andb_prop.
Qed.

Lemma join_path_char (segs : list string) :
  Forall segment segs → Str.all path_char (Str.join "/" segs) = true.
Proof.
  induction 1 as [|s segs Hs Hall IH]; [done |].
  destruct segs as [|s' segs]; [by apply segment_path_char |].
  rewrite join_cons, !all_app, IH, segment_path_char by done. done.
Qed.

Lemma split_scheme_https rest :
  Urllib.split_scheme
    (String "h" (String "t" (String "t" (String "p" (String "s" (String ":" rest))))))
  = ("https", rest).
Proof. reflexivity. Qed.

Lemma urlparse_repo_url host p :
  hostname host → Str.all path_char p = true →
  Urllib.path (Urllib.urlparse ("https://" +:+ host +:+ "/" +:+ p))
  = "/" +:+ p.
Proof.
  intros Hh Hp.
  assert (Str.all (λ a, negb (Urllib.unsafe_byte a)) (host +:+ "/" +:+ p) = true)
    as Hsafe.
  { rewrite !all_app. apply andb_true_intro; split; [| simpl].
    - revert Hh. apply all_impl. intros a. unfold host_char.
      by intros [_ ?]%andb_prop.
    - revert Hp. apply all_impl. intros a. unfold path_char.
      by intros [_ ?]%andb_prop. }
  assert (Str.all (λ a, negb (Urllib.netloc_delim a)) host = true) as Hnd.
  { revert Hh. apply all_impl. intros a. unfold host_char.
    by intros [? _]%andb_prop. }
  assert (∀ c, (∀ a, path_char a = true → negb (Ascii.eqb c a) = true) →
               c ≠ "/"%char →
               Str.all (λ a, negb (Ascii.eqb c a)) (String "/" p) = true) as Hno.
  { intros c Hc Hne. simpl. apply Ascii.eqb_neq in Hne as ->. simpl.
    revert Hp. by apply all_impl. }
  simpl in Hsafe.
  unfold Urllib.urlparse.
  simpl Str.lstrip_if. simpl Str.remove. rewrite (remove_none _ _ Hsafe).
  rewrite split_scheme_https.
  cbv beta iota. simpl Str.startswith. cbv iota. simpl Str.drop.
  rewrite take_until_app, drop_until_app by done.
  rewrite (take_until_none (Ascii.eqb "#")), (take_until_none (Ascii.eqb "?")).
  - rewrite (contains_false_all ";"), andb_false_r; [done |].
    erewrite all_impl; [done | | apply (Hno ";"%char); [| done]].
    + intros a. by rewrite Ascii.eqb_sym.
    + intros a. unfold path_char. by intros [[_ ?]%andb_prop _]%andb_prop.
  - apply Hno; [| done]. intros a. unfold path_char.
    by intros [[[? _]%andb_prop _]%andb_prop _]%andb_prop.
  - apply Hno; [| done]. intros a. unfold path_char.
    by intros [[[_ ?]%andb_prop _]%andb_prop _]%andb_prop.
Qed.

Lemma join_head_segment s (segs : list string) :
  segment s → ∃ a t, Str.join "/" (s :: segs) = String a t ∧ a ≠ "/"%char.
Proof.
  intros [Hne Hs]. destruct s as [|a s]; [done |].
  exists a. simpl in Hs. apply andb_prop in Hs as [Ha _].
  unfold seg_char in Ha. apply andb_prop in Ha as [_ Ha].
  apply negb_true_iff, Ascii.eqb_neq in Ha.
  destruct segs; simpl; eauto.
Qed.

Lemma strip_join (segs : list string) :
  Forall segment segs →
  Str.strip "/" ("/" +:+ Str.join "/" segs) = Str.join "/" segs.
Proof.
  intros Hall. unfold Str.strip.
  assert (Str.lstrip "/" ("/" +:+ Str.join "/" segs) = Str.join "/" segs) as ->.
  { destruct Hall as [|s segs Hs Hall]; [done |].
    destruct (join_head_segment s segs Hs) as (a & t & -> & Ha).
    simpl. by apply Ascii.eqb_neq in Ha as ->. }
  apply rstrip_join. eapply Forall_impl; [done |].
  intros s Hs. split; [apply Hs | by apply segment_no_slash].
Qed.

(** The URL of a repository location is taken apart into its segments. *)
Lemma path_parts_repo_url host (segs : list string) :
  hostname host → Forall segment segs → segs ≠ [] →
  url_path_parts (repo_url host segs) = segs.
Proof.
  intros Hh Hall Hne. unfold url_path_parts, repo_url.
  rewrite urlparse_repo_url by auto using join_path_char.
  rewrite strip_join by done. apply split_join; [done |].
  eapply Forall_impl; [done |]. apply segment_no_slash.
Qed.

Lemma path_parts_repo_root host :
  hostname host → url_path_parts (repo_url host []) = [""].
Proof.
  intros Hh. unfold url_path_parts, repo_url.
  by rewrite urlparse_repo_url.
Qed.

Lemma parse_github_url_parts url o r m b (rest : list string) :
  url_path_parts url = o :: r :: m :: b :: rest →
  parse_github_url url = Returned (o +:+ "/" +:+ r, b, Str.join "/" rest).
Proof.
  unfold parse_github_url, url_path_parts. by intros ->.
Qed.

Lemma parse_github_url_repo_url host owner repo marker br (rest : list string) :
  hostname host → Forall segment (owner :: repo :: marker :: br :: rest) →
  parse_github_url (repo_url host (owner :: repo :: marker :: br :: rest))
  = Returned (owner +:+ "/" +:+ repo, br, Str.join "/" rest).
Proof.
  intros Hh Hall. apply (parse_github_url_parts _ _ _ marker).
  by apply path_parts_repo_url.
Qed.

Lemma parse_github_url_short url :
  length (url_path_parts url) < 4 →
  parse_github_url url = Raised (Exn IndexError "list index out of range").
Proof.
  unfold parse_github_url, url_path_parts.
  destruct (Str.split _ _) as [|o [|r [|m [|b rest]]]]; simpl; try done. lia.
Qed.

End Locator.

(** ** Properties of the Repository Locator *)



(** Segments are counted as the source splits the path: slashes at both
    ends are stripped, but the empty part between two slashes is a part.  So
    this URL has four parts, and is located. *)
Example doubled_slash_is_a_part :
  url_path_parts "https://github.com/acme//widgets/tree"
  = ["acme"; ""; "widgets"; "tree"]
  ∧ parse_github_url "https://github.com/acme//widgets/tree"
    = Returned ("acme/", "tree", "").
Proof. by vm_compute. Qed.



(** The same for the URLs of repository locations: fewer than four
    segments, whatever they are, and the Locator fails. *)
Lemma locator_too_few_segments_repo_url host (segs : list string) :
  hostname host → Forall segment segs → length segs < 4 →
  parse_github_url (repo_url host segs)
  = Raised (Exn IndexError "list index out of range").
Proof.
  intros Hh Hall Hlen. apply parse_github_url_short.
  destruct segs as [|s segs].
  - rewrite path_parts_repo_root by done. simpl. lia.
  - by rewrite path_parts_repo_url.
Qed.






(** On repository URLs: whatever segment stands in the marker's place, the
    location is the same. *)
Lemma marker_irrelevant_repo_url host owner repo m m' br (rest : list string) :
  hostname host → Forall segment (owner :: repo :: br :: rest) →
  segment m → segment m' →
  parse_github_url (repo_url host (owner :: repo :: m :: br :: rest))
  = parse_github_url (repo_url host (owner :: repo :: m' :: br :: rest)).
Proof.
  intros Hh Hall Hm Hm'.
  apply Forall_cons in Hall as [Ho Hall]. apply Forall_cons in Hall as [Hr Hall].
  assert (∀ x, segment x → Forall segment (owner :: repo :: x :: br :: rest))
    as Hx by (intros x Hs; by repeat (apply Forall_cons; split; [done |])).
  rewrite !parse_github_url_repo_url by auto. done.
Qed.

(** ** Properties of the Tree Resolver *)

Global Instance starts_with_dec p s : Decision (starts_with p s).
Proof.
  destruct (Str.startswith s p) eqn:E.
  - left. by apply startswith_spec.
  - right. intros H%startswith_spec. congruence.
Defined.

Global Instance retained_dec subfolder_path it :
  Decision (retained subfolder_path it).
Proof. unfold retained. apply _. Defined.

Lemma files_to_fetch_retained sub (tree : list item) :
  files_to_fetch sub tree = filter (retained sub) tree.
Proof.
  unfold files_to_fetch. induction tree as [|it tree IH]; [done |].
  rewrite !filter_cons, IH.
  destruct (decide (retained sub it)) as [[Ht Hp] | Hn].
  - apply startswith_spec in Hp. rewrite Hp, bool_decide_eq_true_2 by done.
    by rewrite decide_True.
  - rewrite decide_False; [done |].
    intros [Hp Ht%bool_decide_eq_true]%Is_true_true%andb_prop.
    apply Hn. split; [done | by apply startswith_spec].
Qed.

(** C1.  The Tree Resolver keeps exactly the entries that are blobs and
    whose path starts with the subfolder, in the order of the listing; the
    empty subfolder is a prefix of every path; and of the tree
    [src/a.py], [src/lib/b.py], [docs/c.md] (blobs), [src/lib] (tree) with
    subfolder [src/lib] exactly [src/lib/b.py] is kept. *)
Theorem tree_resolver_selects :
  (∀ sub tree, files_to_fetch sub tree = filter (retained sub) tree)
  ∧ (∀ sub tree it,
       it ∈ files_to_fetch sub tree
       ↔ it ∈ tree ∧ type it = "blob" ∧ starts_with sub (path it))
  ∧ (∀ tree it, it ∈ files_to_fetch "" tree ↔ it ∈ tree ∧ type it = "blob")
  ∧ files_to_fetch "src/lib" example_tree = [Item "src/lib/b.py" "blob"].
Proof.
  split; [apply files_to_fetch_retained |].
  split; [| split; [| done]].
  - intros sub tree it. rewrite files_to_fetch_retained, list_elem_of_filter.
    unfold retained. tauto.
  - intros tree it. rewrite files_to_fetch_retained, list_elem_of_filter.
    unfold retained, starts_with. split; [tauto |].
    intros [? ?]. split; [| done]. split; [done |]. by exists (path it).
Qed.

(** ** Properties of the Content Fetcher *)

Lemma connector_is_client e :
  isinstance e ClientConnectorError = true → isinstance e ClientError = true.
Proof.
  unfold isinstance. destruct e as [c m]. simpl. by destruct c.
Qed.

(** [get_file_content], case by case. *)
Lemma get_file_content_unfold net filepath st :
  get_file_content net filepath st =
  let rq := file_request (self st) filepath in
  let st1 := State (self st) (sent rq (env st)) in
  match raw net rq with
  | Response status body =>
      if bool_decide (status = 200%Z) then (Returned (Some body), st1)
      else (Returned None,
            State (self st) (printed (file_diagnostic (req_url rq) (raw net rq))
                               (sent rq (env st))))
  | Failure e =>
      if isinstance e ClientError
      then (Returned None,
            State (self st) (printed (file_diagnostic (req_url rq) (raw net rq))
                               (sent rq (env st))))
      else (Raised e, st1)
  end.
Proof.
  unfold get_file_content, try_except, session_get, file_request.
  unfold mbind, M_bind, get_self, set_env, mret, M_ret, raise. simpl.
  destruct (raw net _) as [status body | e] eqn:E; simpl.
  - by destruct (bool_decide (status = 200%Z)).
  - unfold except_client.
    destruct (isinstance e ClientError) eqn:Hc; [done |].
    destruct (isinstance e ClientConnectorError) eqn:Hn; [| done].
    apply connector_is_client in Hn. congruence.
Qed.

(** C4.  When the request for a file comes back with a status other than
    200, or fails with a connection error, [get_file_content] does not
    raise: it returns [None], "no content", and has printed one diagnostic
    line that names the URL (and the status, when there is one).  Nothing
    else has changed but the record of the request. *)
Theorem content_fetcher_contains_failures net filepath st :
  fetch_failure (answer net (self st) filepath) →
  get_file_content net filepath st
  = (Returned None,
     State (self st)
       (printed (file_diagnostic (raw_url (self st) filepath)
                   (answer net (self st) filepath))
          (sent (file_request (self st) filepath) (env st)))).
Proof.
  unfold fetch_failure, answer. intros Hfail.
  rewrite get_file_content_unfold. simpl.
  destruct (raw net _) as [status body | e].
  - by rewrite bool_decide_eq_false_2.
  - by rewrite Hfail.
Qed.

Lemma content_fetcher_contains_failures_witness :
  let net := Network (λ _, Response 200 []) (λ _, Response 404 "Not Found") in
  let st := State (init "acme/widgets" "main" "src" "out" true None)
              (World ∅ ∅ [] []) in
  fetch_failure (answer net (self st) "src/a.py")
  ∧ get_file_content net "src/a.py" st
    = (Returned None,
       State (self st)
         (printed (file_diagnostic (raw_url (self st) "src/a.py")
                     (answer net (self st) "src/a.py"))
            (sent (file_request (self st) "src/a.py") (env st)))).
Proof.
  intros net st.
  assert (fetch_failure (answer net (self st) "src/a.py")) as H by (simpl; lia).
  split; [exact H |].
  exact (content_fetcher_contains_failures net "src/a.py" st H).
Defined.

(** An exception that is not a [ClientError] is not caught. *)
Lemma get_file_content_raises net filepath st e :
  answer net (self st) filepath = Failure e →
  isinstance e ClientError = false →
  get_file_content net filepath st
  = (Raised e, State (self st) (sent (file_request (self st) filepath) (env st))).
Proof.
  unfold answer. intros Ha He. rewrite get_file_content_unfold. simpl.
  by rewrite Ha, He.
Qed.

(** ** The steps of the Fetch Orchestrator *)

Lemma fetch_files_unfold net sched st :
  fetch_files net sched st =
  let f := self st in
  let w1 := sent (tree_request f) (env st) in
  match api net (tree_request f) with
  | Response status tree =>
      if bool_decide (status = 200%Z) then
        let items := files_to_fetch (subfolder f) tree in
        let f1 := with_total_files (length items) f in
        if bool_decide (length items = 0)
        then (Returned tt,
              State f1 (printed "No files found matching the criteria." w1))
        else
          let f2 := with_progress_bar (Some (Tqdm (length items) 0 false)) f1 in
          match gather net sched (map Pending items) (State f2 w1) with
          | (Returned _, st3) =>
              match progress_bar_close st3 with
              | (Raised e, st4) => handled e st4
              | r => r
              end
          | (Raised e, st3) => handled e st3
          end
      else (Returned tt,
            State f (printed (tree_diagnostic (tree_url f)
                                (api net (tree_request f))) w1))
  | Failure e => handled e (State f w1)
  end.
Proof.
  unfold fetch_files, try_except, session_get, tree_request, handled.
  unfold mbind, M_bind, get_self, set_env, set_self, mret, M_ret, raise. simpl.
  assert (∀ e, except_client
                 (λ e, print ("Error fetching tree: " +:+ msg e))
                 (λ e, print ("Connection error for tree: " +:+ msg e)) e
               = if isinstance e ClientError
                 then Some (print ("Error fetching tree: " +:+ msg e))
                 else None) as Hex.
  { intros e. unfold except_client.
    destruct (isinstance e ClientError) eqn:Hc; [done |].
    destruct (isinstance e ClientConnectorError) eqn:Hn; [| done].
    apply connector_is_client in Hn. congruence. }
  destruct (api net _) as [status tree | e] eqn:E; simpl.
  - destruct (bool_decide (status = 200%Z)); simpl; [| done].
    destruct (bool_decide (length (files_to_fetch _ tree) = 0)); simpl; [done |].
    destruct (gather _ _ _ _) as [[rs | e] st3]; simpl.
    + destruct (progress_bar_close st3) as [[[] | e] st4]; simpl; [done |].
      rewrite Hex. by destruct (isinstance e ClientError).
    + rewrite Hex. by destruct (isinstance e ClientError).
  - rewrite Hex. by destruct (isinstance e ClientError).
Qed.

(** A failed tree query: the diagnostic is printed, [fetch_files] returns. *)
Lemma fetch_files_failure net sched st :
  fetch_failure (api net (tree_request (self st))) →
  fetch_files net sched st
  = (Returned tt,
     State (self st)
       (printed (tree_diagnostic (tree_url (self st))
                   (api net (tree_request (self st))))
          (sent (tree_request (self st)) (env st)))).
Proof.
  unfold fetch_failure. intros Hfail. rewrite fetch_files_unfold. simpl.
  destruct (api net _) as [status tree | e].
  - by rewrite bool_decide_eq_false_2.
  - unfold handled. by rewrite Hfail.
Qed.

(** C5.  When the tree query comes back with a status other than 200,
    [fetch_files] returns after printing the error: the only request sent
    is the tree query itself, so no file is fetched, the fetcher has neither
    a file count nor a progress bar, and files and directories are what
    they were.  The same holds for the whole of [main]. *)
Theorem tree_failure_fetches_nothing
    net sched url root_dir verify_ssl pat_token w rn br sub status tree :
  parse_github_url url = Returned (rn, br, sub) →
  let f := init rn br sub root_dir verify_ssl pat_token in
  api net (tree_request f) = Response status tree →
  status ≠ 200%Z →
  fetch_files net sched (State f w)
  = (Returned tt,
     State f (printed ("Error " +:+ pretty status +:+ " for " +:+ tree_url f)
                (sent (tree_request f) w)))
  ∧ total_files f = 0 ∧ progress_bar f = None
  ∧ ∃ w', main net sched url root_dir verify_ssl pat_token w = (Returned tt, w')
          ∧ files w' = files w ∧ dirs w' = dirs w
          ∧ requests w' = tree_request f :: requests w.
Proof.
  intros Hparse f Hapi Hstatus.
  assert (fetch_files net sched (State f w)
          = (Returned tt,
             State f (printed ("Error " +:+ pretty status +:+ " for " +:+ tree_url f)
                        (sent (tree_request f) w)))) as Hrun.
  { rewrite fetch_files_failure; simpl; rewrite Hapi; done. }
  split; [exact Hrun |]. split; [done |]. split; [done |].
  eexists. unfold main. rewrite Hparse. fold f. rewrite Hrun. done.
Qed.

Lemma tree_failure_fetches_nothing_witness :
  let net := Network (λ _, Response 404 []) (λ _, Response 200 "text") in
  let url := "https://github.com/acme/widgets/tree/main/src" in
  let w := World ∅ ∅ [] [] in
  let f := init "acme/widgets" "main" "src" "out" true None in
  parse_github_url url = Returned ("acme/widgets", "main", "src")
  ∧ api net (tree_request f) = Response 404 []
  ∧ 404%Z ≠ 200%Z
  ∧ fetch_files net [] (State f w)
    = (Returned tt,
       State f (printed ("Error " +:+ pretty 404%Z +:+ " for " +:+ tree_url f)
                  (sent (tree_request f) w)))
  ∧ total_files f = 0 ∧ progress_bar f = None
  ∧ ∃ w', main net [] url "out" true None w = (Returned tt, w')
          ∧ files w' = files w ∧ dirs w' = dirs w
          ∧ requests w' = tree_request f :: requests w.
Proof.
  intros net url w f.
  assert (parse_github_url url = Returned ("acme/widgets", "main", "src")) as H1
    by (vm_compute; reflexivity).
  assert (api net (tree_request f) = Response 404 []) as H2 by reflexivity.
  assert (404%Z ≠ 200%Z) as H3 by lia.
  split; [exact H1 |]. split; [exact H2 |]. split; [exact H3 |].
  exact (tree_failure_fetches_nothing net [] url "out" true None w
           "acme/widgets" "main" "src" 404 [] H1 H2 H3).
Defined.

(** C8, as the specification has it, fails: a tree query answered with 404,
    or one that cannot connect, is reported by [fetch_files] itself; [main]
    returns and the exit status is 0. *)
Lemma tree_failure_exits_zero :
  let url := "https://github.com/acme/widgets/tree/main/src" in
  let w := World ∅ ∅ [] [] in
  let not_found := Network (λ _, Response 404 []) (λ _, Response 200 "text") in
  let unreachable :=
    Network (λ _, Failure (Exn ClientConnectorError "Cannot connect to host"))
            (λ _, Response 200 "text") in
  (main not_found [] url "out" true None w).1 = Returned tt
  ∧ exit_status (main not_found [] url "out" true None w).1 = 0%Z
  ∧ (main unreachable [] url "out" true None w).1 = Returned tt
  ∧ exit_status (main unreachable [] url "out" true None w).1 = 0%Z.
Proof. by vm_compute. Qed.

(** C8, amended.  When the tree query fails, with a status other than 200
    or with a connection error, [fetch_files] prints the error and returns:
    the run ends early and without fetching any file, but by a normal
    return of [main], exit status 0, not by an unhandled error. *)
Theorem tree_failure_is_reported
    net sched url root_dir verify_ssl pat_token w rn br sub :
  parse_github_url url = Returned (rn, br, sub) →
  let f := init rn br sub root_dir verify_ssl pat_token in
  fetch_failure (api net (tree_request f)) →
  main net sched url root_dir verify_ssl pat_token w
  = (Returned tt,
     printed (tree_diagnostic (tree_url f) (api net (tree_request f)))
       (sent (tree_request f) w))
  ∧ exit_status (main net sched url root_dir verify_ssl pat_token w).1 = 0%Z.
Proof.
  intros Hparse f Hfail.
  assert (main net sched url root_dir verify_ssl pat_token w
          = (Returned tt,
             printed (tree_diagnostic (tree_url f) (api net (tree_request f)))
               (sent (tree_request f) w))) as Hrun.
  { unfold main. rewrite Hparse. fold f.
    by rewrite (fetch_files_failure net sched (State f w) Hfail). }
  split; [exact Hrun | by rewrite Hrun].
Qed.

Lemma tree_failure_is_reported_witness :
  let net :=
    Network (λ _, Failure (Exn ClientConnectorError "Cannot connect to host"))
            (λ _, Response 200 "text") in
  let url := "https://github.com/acme/widgets/tree/main/src" in
  let w := World ∅ ∅ [] [] in
  let f := init "acme/widgets" "main" "src" "out" true None in
  parse_github_url url = Returned ("acme/widgets", "main", "src")
  ∧ fetch_failure (api net (tree_request f))
  ∧ main net [] url "out" true None w
    = (Returned tt,
       printed (tree_diagnostic (tree_url f) (api net (tree_request f)))
         (sent (tree_request f) w))
  ∧ exit_status (main net [] url "out" true None w).1 = 0%Z.
Proof.
  intros net url w f.
  assert (parse_github_url url = Returned ("acme/widgets", "main", "src")) as H1
    by (vm_compute; reflexivity).
  assert (fetch_failure (api net (tree_request f))) as H2 by reflexivity.
  split; [exact H1 |]. split; [exact H2 |].
  exact (tree_failure_is_reported net [] url "out" true None w
           "acme/widgets" "main" "src" H1 H2).
Defined.

(** ** Properties of the Persistence Writer *)

Lemma save_file_content_unfold filepath content st :
  save_file_content filepath content st =
  let full := destination (self st) filepath in
  let d := OsPath.dirname full in
  let w := env st in
  if bool_decide (d = "") then (Raised (Exn FileNotFoundError d), st)
  else if bool_decide (is_Some (files w !! d))
  then (Raised (Exn FileExistsError d), st)
  else if bool_decide (Exists (λ x, is_Some (files w !! x)) (OsPath.lineage d))
  then (Raised (Exn NotADirectoryError d), st)
  else
    let w1 := with_dirs (dirs w ∪ list_to_set (OsPath.lineage d)) w in
    if bool_decide (full ∈ dirs w1)
    then (Raised (Exn IsADirectoryError full), State (self st) w1)
    else (Returned tt,
          State (self st) (with_files (<[full := content]> (files w)) w1)).
Proof.
  unfold save_file_content, makedirs, open_write, destination.
  unfold mbind, M_bind, get_self, mret, M_ret. simpl.
  repeat (case_bool_decide; simpl; try done).
Qed.

Lemma progress_bar_update_unfold k st :
  progress_bar_update k st =
  match progress_bar (self st) with
  | Some bar =>
      (Returned tt,
       State (with_progress_bar
                (Some (Tqdm (total bar) (n bar + k) (closed bar))) (self st))
         (env st))
  | None =>
      (Raised (Exn AttributeError "'NoneType' object has no attribute 'update'"),
       st)
  end.
Proof.
  unfold progress_bar_update, mbind, M_bind, get_self, set_self, raise. simpl.
  by destruct (progress_bar (self st)).
Qed.

Lemma process_file_resume_unfold it content st :
  process_file_resume it content st =
  let saved :=
    if truthy content
    then save_file_content (path it) (default "" content) st
    else (Returned tt, st) in
  match saved with
  | (Returned _, st1) =>
      match progress_bar_update 1 st1 with
      | (Returned _, st2) => (Returned true, st2)
      | (Raised e, st2) => (Raised e, st2)
      end
  | (Raised e, st1) => (Raised e, st1)
  end.
Proof.
  unfold process_file_resume, mbind, M_bind, mret, M_ret.
  destruct (truthy content); [| done].
  by destruct (save_file_content _ _ st) as [[[] | e] st1].
Qed.

(** Saving either fails and leaves the files alone, or puts exactly the
    content at the destination and leaves the other files alone. *)
Lemma save_file_content_files filepath content st r st' :
  save_file_content filepath content st = (r, st') →
  self st' = self st
  ∧ match r with
    | Returned _ =>
        files (env st')
        = <[destination (self st) filepath := content]> (files (env st))
    | Raised _ => files (env st') = files (env st)
    end.
Proof.
  rewrite save_file_content_unfold. simpl.
  repeat case_bool_decide; intros [= <- <-]; done.
Qed.

Lemma save_file_content_writable filepath content st :
  writable (env st) (destination (self st) filepath) →
  save_file_content filepath content st
  = (Returned tt,
     State (self st)
       (with_files (<[destination (self st) filepath := content]> (files (env st)))
          (with_dirs (dirs (env st) ∪ list_to_set
                        (OsPath.lineage
                           (OsPath.dirname (destination (self st) filepath))))
             (env st)))).
Proof.
  intros (Hd & Hanc & Hnd & Hnl). rewrite save_file_content_unfold. simpl.
  unfold ancestors in Hanc. apply Forall_cons in Hanc as [Hdir Hanc].
  rewrite bool_decide_eq_false_2 by done.
  rewrite bool_decide_eq_false_2 by (rewrite Hdir; by intros [? ?]).
  rewrite bool_decide_eq_false_2.
  2:{ rewrite Exists_exists. intros (x & Hx & Hsome).
      rewrite Forall_forall in Hanc. rewrite (Hanc x Hx) in Hsome.
      by destruct Hsome. }
  rewrite bool_decide_eq_false_2; [done |].
  rewrite elem_of_union, elem_of_list_to_set. tauto.
Qed.

(** Errors of the file system are not caught: with an empty root directory
    a file at the top of the tree has no directory part, [os.makedirs('')]
    raises, and nothing is written. *)
Example save_at_empty_root_raises :
  let st := State (init "acme/widgets" "main" "" "" true None) (World ∅ ∅ [] []) in
  save_file_content "README.md" "# widgets" st
  = (Raised (Exn FileNotFoundError ""), st).
Proof. reflexivity. Qed.

Lemma process_file_unfold net it st :
  process_file net it st =
  match get_file_content net (path it) st with
  | (Returned content, st1) => process_file_resume it content st1
  | (Raised e, st1) => (Raised e, st1)
  end.
Proof. done. Qed.

Lemma get_file_content_success net filepath st body :
  answer net (self st) filepath = Response 200 body →
  get_file_content net filepath st
  = (Returned (Some body),
     State (self st) (sent (file_request (self st) filepath) (env st))).
Proof.
  unfold answer. intros Ha. rewrite get_file_content_unfold. simpl.
  by rewrite Ha.
Qed.



(** ** The batch: turns, counting and settling *)

Lemma turn_unfold net i tasks st :
  turn net i tasks st =
  match tasks !! i with
  | Some (Pending it) =>
      match get_file_content net (path it) st with
      | (Returned content, st1) =>
          (Returned (<[i := Fetched it content]> tasks), st1)
      | (Raised e, st1) => (Raised e, st1)
      end
  | Some (Fetched it content) =>
      match process_file_resume it content st with
      | (Returned r, st1) => (Returned (<[i := Done r]> tasks), st1)
      | (Raised e, st1) => (Raised e, st1)
      end
  | _ => (Returned tasks, st)
  end.
Proof.
  unfold turn, mbind, M_bind, mret, M_ret.
  by destruct (tasks !! i) as [[it | it content | r] |].
Qed.

Lemma turns_cons net i sched tasks st :
  turns net (i :: sched) tasks st =
  match turn net i tasks st with
  | (Returned tasks', st1) => turns net sched tasks' st1
  | (Raised e, st1) => (Raised e, st1)
  end.
Proof. done. Qed.

(** Fetching changes neither the fetcher nor files or directories. *)
Lemma get_file_content_frame net filepath st r st' :
  get_file_content net filepath st = (r, st') →
  self st' = self st
  ∧ files (env st') = files (env st) ∧ dirs (env st') = dirs (env st).
Proof.
  rewrite get_file_content_unfold. simpl.
  destruct (raw net _) as [status body | e].
  - case_bool_decide; by intros [= <- <-].
  - destruct (isinstance e ClientError); by intros [= <- <-].
Qed.

(** The second half of [process_file], when it returns, has returned
    [True] and moved the progress bar by one. *)
Lemma process_file_resume_returns it content st r st' :
  process_file_resume it content st = (Returned r, st') →
  r = true
  ∧ ∃ bar, progress_bar (self st) = Some bar
           ∧ self st'
             = with_progress_bar
                 (Some (Tqdm (total bar) (n bar + 1) (closed bar))) (self st).
Proof.
  rewrite process_file_resume_unfold.
  assert (∀ st1, self st1 = self st →
            match progress_bar_update 1 st1 with
            | (Returned _, st2) => (Returned true, st2)
            | (Raised e, st2) => (Raised e, st2)
            end = (Returned r, st') →
            r = true
            ∧ ∃ bar, progress_bar (self st) = Some bar
                 ∧ self st'
                   = with_progress_bar
                       (Some (Tqdm (total bar) (n bar + 1) (closed bar)))
                       (self st)) as Hupd.
  { intros st1 Hself. rewrite progress_bar_update_unfold, Hself.
    destruct (progress_bar (self st)) as [bar |]; [| done].
    intros [= <- <-]. split; [done |]. by exists bar. }
  destruct (truthy content); simpl; [| by apply Hupd].
  destruct (save_file_content _ _ _) as [[[] | e] st1] eqn:Hsave; [| done].
  apply save_file_content_files in Hsave as [Hself _]. by apply Hupd.
Qed.

Lemma done_count_insert tasks i t t' :
  tasks !! i = Some t →
  done_count (<[i := t']> tasks) + (if is_done t then 1 else 0)
  = done_count tasks + (if is_done t' then 1 else 0).
Proof.
  revert i. induction tasks as [|t0 tasks IH]; intros [|i]; simpl; try done.
  - intros [= ->]. lia.
  - intros Hi. specialize (IH i Hi). lia.
Qed.

(** One turn: the progress bar has moved by exactly the number of tasks
    that have finished in it. *)
Lemma turn_counter net i tasks st tasks' st' bar :
  progress_bar (self st) = Some bar →
  turn net i tasks st = (Returned tasks', st') →
  ∃ bar', progress_bar (self st') = Some bar'
          ∧ total bar' = total bar ∧ closed bar' = closed bar
          ∧ n bar' + done_count tasks = n bar + done_count tasks'.
Proof.
  intros Hbar. rewrite turn_unfold.
  destruct (tasks !! i) as [[it | it content | r] |] eqn:Hi.
  - destruct (get_file_content _ _ _) as [[content | e] st1] eqn:Hget; [| done].
    apply get_file_content_frame in Hget as (Hself & _ & _).
    intros [= <- <-]. exists bar. rewrite Hself.
    pose proof (done_count_insert tasks i _ (Fetched it content) Hi) as Hc.
    simpl in Hc. repeat split; [done | lia].
  - destruct (process_file_resume _ _ _) as [[r | e] st1] eqn:Hres; [| done].
    apply process_file_resume_returns in Hres as (-> & bar0 & Hbar0 & Hself).
    intros [= <- <-]. rewrite Hbar in Hbar0. injection Hbar0 as <-.
    eexists. rewrite Hself. split; [done |].
    pose proof (done_count_insert tasks i _ (Done true) Hi) as Hc.
    simpl in *. repeat split; lia.
  - intros [= <- <-]. exists bar. done.
  - intros [= <- <-]. exists bar. done.
Qed.

Lemma turns_counter net sched tasks st tasks' st' bar :
  progress_bar (self st) = Some bar →
  turns net sched tasks st = (Returned tasks', st') →
  ∃ bar', progress_bar (self st') = Some bar'
          ∧ total bar' = total bar ∧ closed bar' = closed bar
          ∧ n bar' + done_count tasks = n bar + done_count tasks'.
Proof.
  revert tasks st bar. induction sched as [|i sched IH]; intros tasks st bar Hbar.
  - intros [= <- <-]. by exists bar.
  - rewrite turns_cons.
    destruct (turn net i tasks st) as [[tasks1 | e] st1] eqn:Hturn; [| done].
    destruct (turn_counter _ _ _ _ _ _ _ Hbar Hturn)
      as (bar1 & Hbar1 & Ht1 & Hc1 & Hn1).
    intros Hrest.
    destruct (IH _ _ _ Hbar1 Hrest) as (bar' & Hbar' & Ht & Hc & Hn).
    exists bar'. repeat split; [done | congruence | congruence | lia].
Qed.

(** A turn advances its task by one step and leaves the others alone. *)
Lemma turn_rank net i tasks st tasks' st' :
  turn net i tasks st = (Returned tasks', st') →
  length tasks' = length tasks
  ∧ ∀ j t, tasks !! j = Some t →
      ∃ t', tasks' !! j = Some t'
            ∧ rank t' = if decide (j = i) then Nat.min (rank t + 1) 2 else rank t.
Proof.
  rewrite turn_unfold.
  assert (∀ t0 t1, tasks !! i = Some t0 → rank t1 = Nat.min (rank t0 + 1) 2 →
            length (<[i := t1]> tasks) = length tasks
            ∧ ∀ j t, tasks !! j = Some t →
                ∃ t', <[i := t1]> tasks !! j = Some t'
                      ∧ rank t' = if decide (j = i)
                                  then Nat.min (rank t + 1) 2 else rank t) as Hins.
  { intros t0 t1 Hi Hr. split; [apply length_insert |].
    intros j t Hj. destruct (decide (j = i)) as [-> | Hne].
    - exists t1. rewrite list_lookup_insert_eq by (by eapply lookup_lt_Some).
      split; [done |]. congruence.
    - exists t. by rewrite list_lookup_insert_ne. }
  destruct (tasks !! i) as [[it | it content | r] |] eqn:Hi.
  - destruct (get_file_content _ _ _) as [[content | e] st1]; [| done].
    intros [= <- <-]. by eapply Hins.
  - destruct (process_file_resume _ _ _) as [[r | e] st1]; [| done].
    intros [= <- <-]. by eapply Hins.
  - intros [= <- <-]. split; [done |]. intros j t Hj. exists t.
    split; [done |]. case_decide; [| done]. subst j.
    rewrite Hi in Hj. by injection Hj as <-.
  - intros [= <- <-]. split; [done |]. intros j t Hj. exists t.
    split; [done |]. case_decide; [| done]. subst j. congruence.
Qed.

Lemma turns_rank net sched tasks st tasks' st' :
  turns net sched tasks st = (Returned tasks', st') →
  length tasks' = length tasks
  ∧ ∀ j t, tasks !! j = Some t →
      ∃ t', tasks' !! j = Some t'
            ∧ rank t' = Nat.min (rank t + length (filter (λ k, k = j) sched)) 2.
Proof.
  revert tasks st. induction sched as [|i sched IH]; intros tasks st.
  - intros [= <- <-]. split; [done |]. intros j t Hj. exists t.
    split; [done |]. simpl. destruct t; simpl; lia.
  - rewrite turns_cons.
    destruct (turn net i tasks st) as [[tasks1 | e] st1] eqn:Hturn; [| done].
    apply turn_rank in Hturn as [Hlen1 Hrank1].
    intros Hrest. apply IH in Hrest as [Hlen Hrank].
    split; [congruence |]. intros j t Hj.
    destruct (Hrank1 j t Hj) as (t1 & Hj1 & Hr1).
    destruct (Hrank j t1 Hj1) as (t' & Hj' & Hr').
    exists t'. split; [done |]. rewrite Hr', Hr1, filter_cons.
    destruct (decide (j = i)) as [-> | Hne].
    + rewrite decide_True by done. simpl. lia.
    + rewrite decide_False by done. done.
Qed.

Lemma settle_twice k j :
  j < k → length (filter (λ i, i = j) (settle k)) = 2.
Proof.
  unfold settle.
  assert (∀ k start, j < start →
            filter (λ i, i = j) (flat_map (λ i, [i; i]) (seq start k)) = [])
    as Hnone.
  { intros k'. induction k' as [|k' IH]; intros start Hlt; simpl; [done |].
    rewrite !filter_cons, !decide_False by lia. apply IH. lia. }
  assert (∀ k start, start ≤ j < start + k →
            length (filter (λ i, i = j)
                      (flat_map (λ i, [i; i]) (seq start k))) = 2) as Hin.
  { intros k'. induction k' as [|k' IH]; intros start Hlt; [lia |]. simpl.
    rewrite !filter_cons.
    destruct (decide (start = j)) as [-> | Hne].
    - rewrite Hnone by lia. done.
    - apply IH. lia. }
  intros Hlt. apply Hin. lia.
Qed.

Lemma turns_settled net sched tasks st tasks' st' :
  turns net (sched ++ settle (length tasks)) tasks st = (Returned tasks', st') →
  length tasks' = length tasks
  ∧ Forall (λ t, rank t = 2) tasks'.
Proof.
  intros [Hlen Hrank]%turns_rank. split; [done |].
  apply Forall_lookup. intros j t' Hj'.
  assert (j < length tasks) as Hlt by (rewrite <- Hlen; by eapply lookup_lt_Some).
  destruct (lookup_lt_is_Some_2 tasks j Hlt) as [t Hj].
  destruct (Hrank j t Hj) as (t'' & Hj'' & Hr).
  rewrite Hj' in Hj''. injection Hj'' as <-.
  rewrite filter_app, length_app, settle_twice in Hr by done.
  destruct t; simpl in Hr; lia.
Qed.

Lemma done_count_settled tasks :
  Forall (λ t, rank t = 2) tasks →
  done_count tasks = length tasks ∧ length (results tasks) = length tasks.
Proof.
  induction 1 as [|t tasks Ht Hall [IH1 IH2]]; [done |].
  destruct t; simpl in *; try discriminate. split; congruence.
Qed.

(** No exception of a turn is a [ClientError]: those are turned into "no
    content" where they arise. *)
Lemma save_file_content_raises filepath content st e st' :
  save_file_content filepath content st = (Raised e, st') →
  isinstance e ClientError = false.
Proof.
  rewrite save_file_content_unfold. simpl.
  repeat case_bool_decide; by intros [= <- <-].
Qed.

Lemma progress_bar_update_raises k st e st' :
  progress_bar_update k st = (Raised e, st') →
  isinstance e ClientError = false.
Proof.
  rewrite progress_bar_update_unfold.
  destruct (progress_bar (self st)); [done |]. by intros [= <- <-].
Qed.

Lemma process_file_resume_raises it content st e st' :
  process_file_resume it content st = (Raised e, st') →
  isinstance e ClientError = false.
Proof.
  rewrite process_file_resume_unfold.
  destruct (truthy content); simpl.
  - destruct (save_file_content _ _ _) as [[[] | e0] st1] eqn:Hsave.
    + destruct (progress_bar_update 1 st1) as [[[] | e1] st2] eqn:Hupd;
        [done |]. intros [= <- <-]. by eapply progress_bar_update_raises.
    + intros [= <- <-]. by eapply save_file_content_raises.
  - destruct (progress_bar_update 1 st) as [[[] | e1] st2] eqn:Hupd; [done |].
    intros [= <- <-]. by eapply progress_bar_update_raises.
Qed.

Lemma turn_raises net i tasks st e st' :
  turn net i tasks st = (Raised e, st') → isinstance e ClientError = false.
Proof.
  rewrite turn_unfold.
  destruct (tasks !! i) as [[it | it content | r] |]; try done.
  - rewrite get_file_content_unfold. simpl.
    destruct (raw net _) as [status body | e0].
    + by case_bool_decide.
    + destruct (isinstance e0 ClientError) eqn:He; [done |]. congruence.
  - destruct (process_file_resume _ _ _) as [[r | e0] st1] eqn:Hres; [done |].
    intros [= <- <-]. by eapply process_file_resume_raises.
Qed.

Lemma turns_raises net sched tasks st e st' :
  turns net sched tasks st = (Raised e, st') → isinstance e ClientError = false.
Proof.
  revert tasks st. induction sched as [|i sched IH]; intros tasks st; [done |].
  rewrite turns_cons.
  destruct (turn net i tasks st) as [[tasks1 | e0] st1] eqn:Hturn.
  - apply IH.
  - intros [= <- <-]. by eapply turn_raises.
Qed.

(** A turn changes nothing of the fetcher but its progress bar, however it
    ends. *)
Lemma process_file_resume_self it content st r st' :
  process_file_resume it content st = (r, st') →
  with_progress_bar None (self st') = with_progress_bar None (self st).
Proof.
  rewrite process_file_resume_unfold.
  assert (∀ st1, self st1 = self st →
            match progress_bar_update 1 st1 with
            | (Returned _, st2) => (Returned true, st2)
            | (Raised e, st2) => (Raised e, st2)
            end = (r, st') →
            with_progress_bar None (self st') = with_progress_bar None (self st))
    as Hupd.
  { intros st1 Hself. rewrite progress_bar_update_unfold.
    destruct (progress_bar (self st1)); intros [= <- <-]; simpl;
      by rewrite Hself. }
  destruct (truthy content); simpl; [| by apply Hupd].
  destruct (save_file_content _ _ _) as [[[] | e] st1] eqn:Hsave;
    apply save_file_content_files in Hsave as [Hself _].
  - by apply Hupd.
  - intros [= <- <-]. by rewrite Hself.
Qed.

Lemma turn_self net i tasks st r st' :
  turn net i tasks st = (r, st') →
  with_progress_bar None (self st') = with_progress_bar None (self st).
Proof.
  rewrite turn_unfold.
  destruct (tasks !! i) as [[it | it content | r0] |];
    try (by intros [= <- <-]).
  - destruct (get_file_content _ _ _) as [[content | e] st1] eqn:Hget;
      apply get_file_content_frame in Hget as (Hself & _ & _);
      intros [= <- <-]; by rewrite Hself.
  - destruct (process_file_resume _ _ _) as [[r1 | e] st1] eqn:Hres;
      apply process_file_resume_self in Hres; by intros [= <- <-].
Qed.

Lemma turns_self net sched tasks st r st' :
  turns net sched tasks st = (r, st') →
  with_progress_bar None (self st') = with_progress_bar None (self st).
Proof.
  revert tasks st. induction sched as [|i sched IH]; intros tasks st.
  - by intros [= <- <-].
  - rewrite turns_cons.
    destruct (turn net i tasks st) as [[tasks1 | e] st1] eqn:Hturn;
      apply turn_self in Hturn.
    + intros Hrest. apply IH in Hrest. congruence.
    + by intros [= <- <-].
Qed.

(** ** The batch on a benign file system *)

Lemma join_relative_inj root p q :
  relative p → relative q → OsPath.join root p = OsPath.join root q → p = q.
Proof.
  unfold relative, OsPath.join. intros -> ->.
  destruct (bool_decide (root = "") || OsPath.endswith_slash root).
  - apply app_inv_head_str.
  - intros H%app_inv_head_str. by apply app_inv_head_str in H.
Qed.

Section Batch.

Variables (net : network) (f : GithubFetcher) (items : list item) (w0 : world).

Hypothesis Hanswered : Forall (λ it, answered (answer net f (path it))) items.
Hypothesis Hrelative : Forall (λ it, relative (path it)) items.
Hypothesis Hbenign : benign w0 (destinations f items).

Lemma item_destination i it :
  items !! i = Some it → destination f (path it) ∈ destinations f items.
Proof.
  intros Hi. unfold destinations. apply list_elem_of_fmap.
  exists it. split; [done |]. by eapply list_elem_of_lookup_2.
Qed.

(** Two entries with one destination have one content. *)
Lemma same_destination_same_content i j it it' :
  items !! i = Some it → items !! j = Some it' →
  destination f (path it) = destination f (path it') →
  fetched net f it = fetched net f it'.
Proof.
  intros Hi Hj Hd. unfold fetched.
  rewrite Forall_lookup in Hrelative.
  by rewrite (join_relative_inj _ _ _ (Hrelative _ _ Hi) (Hrelative _ _ Hj) Hd).
Qed.

Lemma get_file_content_answered bar it w i :
  items !! i = Some it →
  ∃ w1, get_file_content net (path it) (State (with_progress_bar (Some bar) f) w)
        = (Returned (fetched net f it), State (with_progress_bar (Some bar) f) w1)
        ∧ files w1 = files w ∧ dirs w1 = dirs w.
Proof.
  intros Hi. rewrite Forall_lookup in Hanswered.
  specialize (Hanswered _ _ Hi). unfold answered, answer in Hanswered.
  rewrite get_file_content_unfold. unfold fetched, answer. simpl.
  change (file_request (with_progress_bar (Some bar) f) (path it))
    with (file_request f (path it)).
  destruct (raw net (file_request f (path it))) as [status body | e].
  - case_bool_decide; eexists; split; done.
  - rewrite Hanswered. eexists; split; done.
Qed.

(** A destination of the batch can be written at any point of the batch. *)
Lemma destination_writable tasks st q :
  batch_inv net f items w0 tasks st →
  q ∈ destinations f items → writable (env st) q.
Proof.
  intros (_ & _ & _ & Hframe & Hdirs) Hq.
  unfold benign in Hbenign. rewrite Forall_forall in Hbenign.
  destruct (Hbenign q Hq) as (Hd & Hnd & Hanc).
  rewrite Forall_forall in Hanc.
  assert (∀ q', q' ∈ destinations f items →
            q ∉ OsPath.lineage (OsPath.dirname q')) as Hnl.
  { intros q' Hq' Hin. destruct (Hbenign q' Hq') as (_ & _ & Hanc').
    rewrite Forall_forall in Hanc'.
    destruct (Hanc' q) as [_ Hno]; [| done].
    unfold ancestors. by apply elem_of_cons; right. }
  split; [done |]. split; [| split].
  - apply Forall_forall. intros d Hd'.
    destruct (Hanc d Hd') as [Hnone Hno]. by rewrite Hframe.
  - intros Hin. destruct (Hdirs q Hin) as [? | (q' & Hq' & Hl)]; [done |].
    by eapply Hnl.
  - by apply Hnl.
Qed.

Lemma batch_inv_init bar w :
  files w = files w0 → dirs w = dirs w0 →
  batch_inv net f items w0 (map Pending items)
    (State (with_progress_bar (Some bar) f) w).
Proof.
  intros Hf Hd. split; [by exists bar |]. split; [| split; [| split]].
  - apply Forall2_fmap_l, Forall_Forall2_diag, Forall_forall.
    intros it _. by left.
  - intros i it body _ Hi. rewrite list_lookup_fmap in Hi.
    by destruct (items !! i).
  - intros p _. simpl. by rewrite Hf.
  - intros d. simpl. rewrite Hd. auto.
Qed.

(** Every turn of the batch returns and keeps the invariant. *)
Lemma turn_inv i tasks st :
  batch_inv net f items w0 tasks st →
  ∃ tasks' st', turn net i tasks st = (Returned tasks', st')
                ∧ batch_inv net f items w0 tasks' st'.
Proof.
  intros Hinv. pose proof Hinv as ([bar Hself] & Hal & Hpers & Hframe & Hdirs).
  rewrite turn_unfold.
  destruct (tasks !! i) as [t |] eqn:Hi; [| by eexists _, _].
  destruct (Forall2_lookup_l _ _ _ _ _ Hal Hi) as (it & Hit & Ha).
  assert (i < length tasks) as Hlt by (by eapply lookup_lt_Some).
  assert (∀ t', aligned net f t' it →
            Forall2 (aligned net f) (<[i := t']> tasks) items) as Hal'.
  { intros t' Ht'. rewrite <- (list_insert_id items i it Hit).
    by apply Forall2_insert. }
  destruct st as [fs w]. simpl in Hself, Hpers, Hframe, Hdirs. subst fs.
  destruct Ha as [-> | [-> | ->]]; [| | by eexists _, _].
  - (* the answer arrives *)
    destruct (get_file_content_answered bar it w i Hit) as (w1 & -> & Hf1 & Hd1).
    eexists _, _. split; [done |].
    split; [by exists bar |]. split; [apply Hal'; right; by left |].
    simpl. rewrite Hf1, Hd1. split; [| done].
    intros j it' body Hj Htj. destruct (decide (j = i)) as [-> | Hne].
    + by rewrite list_lookup_insert_eq in Htj.
    + rewrite list_lookup_insert_ne in Htj by done. by eapply Hpers.
  - (* the task runs to its end *)
    rewrite process_file_resume_unfold.
    destruct (truthy (fetched net f it)) eqn:Htruthy.
    + destruct (fetched net f it) as [[| a body] |] eqn:Hfet; try done.
      pose proof (item_destination i it Hit) as Hdest.
      rewrite save_file_content_writable
        by (by eapply (destination_writable tasks)).
      cbv zeta beta iota. rewrite progress_bar_update_unfold. simpl.
      change (destination (with_progress_bar (Some bar) f) (path it))
        with (destination f (path it)).
      eexists _, _. split; [done |].
      split; [by eexists |]. split; [apply Hal'; right; by right |].
      simpl. split; [| split].
      * intros j it' body' Hj Htj Hfet' Hne'.
        destruct (decide (destination f (path it') = destination f (path it)))
          as [E | NE].
        -- rewrite E, lookup_insert_eq.
           rewrite (same_destination_same_content j i it' it Hj Hit E) in Hfet'.
           congruence.
        -- rewrite lookup_insert_ne by done.
           destruct (decide (j = i)) as [-> | Hne]; [congruence |].
           rewrite list_lookup_insert_ne in Htj by done. by eapply Hpers.
      * intros p Hp. rewrite lookup_insert_ne by (by intros <-).
        by apply Hframe.
      * intros d [Hd | Hd%elem_of_list_to_set]%elem_of_union; [by apply Hdirs |].
        right. by exists (destination f (path it)).
    + cbv zeta beta iota. rewrite progress_bar_update_unfold. simpl.
      eexists _, _. split; [done |].
      split; [by eexists |]. split; [apply Hal'; right; by right |].
      simpl. split; [| done].
      intros j it' body' Hj Htj Hfet' Hne'.
      destruct (decide (j = i)) as [-> | Hne].
      * assert (it' = it) as -> by congruence.
        rewrite Hfet' in Htruthy. by destruct body'.
      * rewrite list_lookup_insert_ne in Htj by done. by eapply Hpers.
Qed.

Lemma turns_inv sched tasks st :
  batch_inv net f items w0 tasks st →
  ∃ tasks' st', turns net sched tasks st = (Returned tasks', st')
                ∧ batch_inv net f items w0 tasks' st'.
Proof.
  revert tasks st. induction sched as [|i sched IH]; intros tasks st Hinv.
  - by eexists _, _.
  - rewrite turns_cons.
    destruct (turn_inv i tasks st Hinv) as (tasks1 & st1 & -> & Hinv1).
    by apply IH.
Qed.

End Batch.

Lemma gather_unfold net sched tasks st :
  gather net sched tasks st =
  match turns net (sched ++ settle (length tasks)) tasks st with
  | (Returned tasks', st1) => (Returned (results tasks'), st1)
  | (Raised e, st1) => (Raised e, st1)
  end.
Proof. done. Qed.

Lemma done_count_pending (items : list item) :
  done_count (map Pending items) = 0.
Proof. induction items; simpl; auto. Qed.

Lemma progress_bar_close_unfold st :
  progress_bar_close st =
  match progress_bar (self st) with
  | Some bar =>
      (Returned tt,
       State (with_progress_bar (Some (Tqdm (total bar) (n bar) true)) (self st))
         (env st))
  | None =>
      (Raised (Exn AttributeError "'NoneType' object has no attribute 'close'"),
       st)
  end.
Proof.
  unfold progress_bar_close, mbind, M_bind, get_self, set_self, raise. simpl.
  by destruct (progress_bar (self st)).
Qed.


(** A concrete batch: [src/a.py] is answered with 404, [src/lib/b.py] with
    200. *)
Ltac not_in_list :=
  let H := fresh in
  intros H; repeat (apply elem_of_cons in H as [H | H]; [discriminate |]);
  by apply elem_of_nil in H.



(** * Further properties of the program *)

(** ** The Repository Locator *)

Section LocatorMore.

#[local] Arguments String.append !_ _ / : simpl nomatch.

Implicit Types (c a : ascii) (s t p : string) (P : ascii → bool).

Lemma parse_github_url_same_parts url url' :
  url_path_parts url = url_path_parts url' →
  parse_github_url url = parse_github_url url'.
Proof. unfold parse_github_url, url_path_parts. by intros ->. Qed.

Lemma path_parts_repo_url_any host (segs : list string) :
  hostname host → Forall segment segs →
  url_path_parts (repo_url host segs) = if segs is [] then [""] else segs.
Proof.
  intros Hh Hall. destruct segs as [|s segs].
  - by apply path_parts_repo_root.
  - by apply path_parts_repo_url.
Qed.

Lemma rstrip_snoc c s : Str.rstrip c (s +:+ String c "") = Str.rstrip c s.
Proof.
  induction s as [|a s IH]; simpl.
  - by rewrite Ascii.eqb_refl.
  - by rewrite IH.
Qed.

Lemma lstrip_snoc c s :
  Str.lstrip c (s +:+ String c "")
  = if Str.lstrip c s is EmptyString then "" else Str.lstrip c s +:+ String c "".
Proof.
  induction s as [|a s IH]; simpl.
  - by rewrite Ascii.eqb_refl.
  - destruct (Ascii.eqb a c); [done |]. done.
Qed.

(** Stripping does not see one more separator at the end. *)
Lemma strip_snoc c s : Str.strip c (s +:+ String c "") = Str.strip c s.
Proof.
  unfold Str.strip. rewrite lstrip_snoc.
  destruct (Str.lstrip c s) eqn:E; [done |]. by rewrite rstrip_snoc.
Qed.

Lemma take_until_app_none P s t :
  Str.all (λ a, negb (P a)) s = true →
  Str.take_until P (s +:+ t) = s +:+ Str.take_until P t.
Proof.
  induction s as [|a s IH]; simpl; [done |].
  intros [Ha Hs]%andb_prop. apply negb_true_iff in Ha. by rewrite Ha, IH.
Qed.

Lemma split_no_separator c s :
  Forall (λ p, Str.contains c p = false) (Str.split c s).
Proof.
  induction s as [|a s IH]; simpl; [by repeat constructor |].
  destruct (Ascii.eqb a c) eqn:E; [by constructor |].
  destruct (Str.split c s) as [|w ws]; [repeat constructor; simpl; by rewrite E |].
  apply Forall_cons in IH as [Hw Hws]. constructor; [| done].
  simpl. by rewrite E, Hw.
Qed.

Lemma count_char_app c s t :
  count_char c (s +:+ t) = count_char c s + count_char c t.
Proof. induction s as [|a s IH]; simpl; [done |]. rewrite IH. lia. Qed.

Lemma count_char_none c s : Str.contains c s = false → count_char c s = 0.
Proof.
  induction s as [|a s IH]; simpl; [done |].
  intros [-> Hs]%orb_false_elim. by rewrite IH.
Qed.

Lemma urlparse_repo_url_suffix host p t :
  hostname host → Str.all path_char p = true → url_suffix t →
  Urllib.path (Urllib.urlparse ("https://" +:+ host +:+ "/" +:+ p +:+ t))
  = "/" +:+ p.
Proof.
  intros Hh Hp [Hstart Ht].
  assert (Str.all (λ a, negb (Urllib.unsafe_byte a)) (host +:+ "/" +:+ p +:+ t)
          = true) as Hsafe.
  { rewrite !all_app, Ht, andb_true_r. apply andb_true_intro; split; [| simpl].
    - revert Hh. apply all_impl. intros a. unfold host_char.
      by intros [_ ?]%andb_prop.
    - revert Hp. apply all_impl. intros a. unfold path_char.
      by intros [_ ?]%andb_prop. }
  assert (Str.all (λ a, negb (Urllib.netloc_delim a)) host = true) as Hnd.
  { revert Hh. apply all_impl. intros a. unfold host_char.
    by intros [? _]%andb_prop. }
  assert (∀ c, (∀ a, path_char a = true → negb (Ascii.eqb c a) = true) →
               c ≠ "/"%char →
               Str.all (λ a, negb (Ascii.eqb c a)) (String "/" p) = true) as Hno.
  { intros c Hc Hne. simpl. apply Ascii.eqb_neq in Hne as ->. simpl.
    revert Hp. by apply all_impl. }
  assert (Str.all (λ a, negb (Ascii.eqb "#" a)) (String "/" p) = true) as Hhash.
  { apply Hno; [| done]. intros a. unfold path_char.
    by intros [[[_ ?]%andb_prop _]%andb_prop _]%andb_prop. }
  assert (Str.all (λ a, negb (Ascii.eqb "?" a)) (String "/" p) = true) as Hquery.
  { apply Hno; [| done]. intros a. unfold path_char.
    by intros [[[? _]%andb_prop _]%andb_prop _]%andb_prop. }
  assert (Str.take_until (Ascii.eqb "?")
            (Str.take_until (Ascii.eqb "#") (String "/" p +:+ t))
          = String "/" p) as Hcut.
  { destruct t as [|a t]; [by destruct Hstart |].
    destruct Hstart as [Hq | Hf].
    - simpl in Hq. apply andb_prop in Hq as [->%Ascii.eqb_eq _].
      rewrite (take_until_app_none (Ascii.eqb "#")) by done.
      change (Str.take_until (Ascii.eqb "#") (String "?" t))
        with (String "?" (Str.take_until (Ascii.eqb "#") t)).
      by rewrite (take_until_app (Ascii.eqb "?")).
    - simpl in Hf. apply andb_prop in Hf as [->%Ascii.eqb_eq _].
      rewrite (take_until_app (Ascii.eqb "#")) by done.
      by rewrite take_until_none. }
  simpl in Hsafe.
  unfold Urllib.urlparse.
  simpl Str.lstrip_if. simpl Str.remove. rewrite (remove_none _ _ Hsafe).
  rewrite split_scheme_https.
  cbv beta iota. simpl Str.startswith. cbv iota. simpl Str.drop.
  rewrite take_until_app, drop_until_app by done.
  change (String "/" (p +:+ t)) with (String "/" p +:+ t).
  rewrite Hcut.
  rewrite (contains_false_all ";"), andb_false_r; [done |].
  erewrite all_impl; [done | | apply (Hno ";"%char); [| done]].
  - intros a. by rewrite Ascii.eqb_sym.
  - intros a. unfold path_char. by intros [[_ ?]%andb_prop _]%andb_prop.
Qed.

End LocatorMore.





(** X3.  The Locator reads the path of the URL only: a query or a fragment
    after the path makes no difference. *)
Theorem locator_ignores_query_and_fragment host (segs : list string) t :
  hostname host → Forall segment segs → url_suffix t →
  parse_github_url (repo_url host segs +:+ t)
  = parse_github_url (repo_url host segs).
Proof.
  intros Hh Hall Ht. apply parse_github_url_same_parts.
  unfold url_path_parts, repo_url. rewrite !app_assoc_str.
  pose proof (join_path_char segs Hall) as Hp.
  rewrite (urlparse_repo_url_suffix host (Str.join "/" segs) t) by done.
  by rewrite (urlparse_repo_url host (Str.join "/" segs)).
Qed.

Lemma locator_ignores_query_and_fragment_witness :
  hostname "github.com"
  ∧ Forall segment ["acme"; "widgets"; "tree"; "main"; "src"]
  ∧ url_suffix "?tab=readme#L10"
  ∧ parse_github_url
      (repo_url "github.com" ["acme"; "widgets"; "tree"; "main"; "src"]
       +:+ "?tab=readme#L10")
    = parse_github_url
        (repo_url "github.com" ["acme"; "widgets"; "tree"; "main"; "src"]).
Proof.
  assert (hostname "github.com") as H1 by reflexivity.
  assert (Forall segment ["acme"; "widgets"; "tree"; "main"; "src"]) as H2
    by (repeat constructor; discriminate).
  assert (url_suffix "?tab=readme#L10") as H3 by (split; [by left | reflexivity]).
  split; [exact H1 |]. split; [exact H2 |]. split; [exact H3 |].
  exact (locator_ignores_query_and_fragment "github.com" _ _ H1 H2 H3).
Defined.

(** X4.  Whatever URL the Locator accepts, the repository name it returns
    holds exactly one slash and the branch holds none: both are made of
    parts of a path that was split at the slashes. *)
Theorem located_names_are_single_parts url rn br sub :
  parse_github_url url = Returned (rn, br, sub) →
  count_char "/" rn = 1 ∧ count_char "/" br = 0.
Proof.
  unfold parse_github_url.
  pose proof (split_no_separator "/"
                (Str.strip "/" (Urllib.path (Urllib.urlparse url)))) as Hparts.
  destruct (Str.split _ _) as [|o [|r [|m [|b rest]]]]; try done.
  intros [= <- <- <-].
  apply Forall_cons in Hparts as [Ho Hparts].
  apply Forall_cons in Hparts as [Hr Hparts].
  apply Forall_cons in Hparts as [_ Hparts].
  apply Forall_cons in Hparts as [Hb _].
  rewrite !count_char_app.
  rewrite (count_char_none _ o), (count_char_none _ r), (count_char_none _ b)
    by done.
  done.
Qed.

Lemma located_names_are_single_parts_witness :
  parse_github_url "https://github.com/acme//widgets/tree"
  = Returned ("acme/", "tree", "")
  ∧ count_char "/" "acme/" = 1 ∧ count_char "/" "tree" = 0.
Proof.
  assert (parse_github_url "https://github.com/acme//widgets/tree"
          = Returned ("acme/", "tree", "")) as H by (vm_compute; reflexivity).
  split; [exact H |].
  exact (located_names_are_single_parts _ _ _ _ H).
Defined.


(** ** The Fetch Orchestrator: edges *)

Lemma files_to_fetch_nil sub (tree : list item) :
  (∀ it, it ∈ tree → type it = "blob" → ¬ starts_with sub (path it)) →
  files_to_fetch sub tree = [].
Proof.
  intros Hnone. rewrite files_to_fetch_retained.
  apply elem_of_nil_inv. intros it [[Ht Hp] Hin]%list_elem_of_filter.
  by eapply Hnone.
Qed.

(** X5.  When the tree is listed but holds no blob below the subfolder
    (an empty tree included), [fetch_files] prints that no files were
    found and returns: [main] ends with exit status 0, having sent the tree
    query only and touched no file or directory. *)
Theorem empty_selection_ends_quietly
    net sched url root_dir verify_ssl pat_token w rn br sub tree :
  parse_github_url url = Returned (rn, br, sub) →
  let f := init rn br sub root_dir verify_ssl pat_token in
  api net (tree_request f) = Response 200 tree →
  (∀ it, it ∈ tree → type it = "blob" → ¬ starts_with sub (path it)) →
  main net sched url root_dir verify_ssl pat_token w
  = (Returned tt,
     printed "No files found matching the criteria." (sent (tree_request f) w))
  ∧ exit_status (main net sched url root_dir verify_ssl pat_token w).1 = 0%Z.
Proof.
  intros Hparse f Hapi Hnone.
  assert (main net sched url root_dir verify_ssl pat_token w
          = (Returned tt,
             printed "No files found matching the criteria."
               (sent (tree_request f) w))) as Hrun.
  { unfold main. rewrite Hparse. fold f. rewrite fetch_files_unfold. simpl.
    rewrite Hapi, bool_decide_eq_true_2 by done.
    change (subfolder f) with sub. by rewrite (files_to_fetch_nil sub tree Hnone). }
  split; [exact Hrun | by rewrite Hrun].
Qed.

Lemma empty_selection_ends_quietly_witness :
  let net := Network (λ _, Response 200 example_tree) (λ _, Response 200 "text") in
  let url := "https://github.com/acme/widgets/tree/main/tests" in
  let w := World ∅ ∅ [] [] in
  let f := init "acme/widgets" "main" "tests" "out" true None in
  parse_github_url url = Returned ("acme/widgets", "main", "tests")
  ∧ api net (tree_request f) = Response 200 example_tree
  ∧ (∀ it, it ∈ example_tree → type it = "blob" → ¬ starts_with "tests" (path it))
  ∧ main net [] url "out" true None w
    = (Returned tt,
       printed "No files found matching the criteria." (sent (tree_request f) w))
  ∧ exit_status (main net [] url "out" true None w).1 = 0%Z.
Proof.
  intros net url w f.
  assert (parse_github_url url = Returned ("acme/widgets", "main", "tests")) as H1
    by (vm_compute; reflexivity).
  assert (api net (tree_request f) = Response 200 example_tree) as H2
    by reflexivity.
  assert (∀ it, it ∈ example_tree → type it = "blob" →
                ¬ starts_with "tests" (path it)) as H3.
  { intros it Hin _ Hp%startswith_spec. unfold example_tree in Hin.
    repeat (apply elem_of_cons in Hin as [-> | Hin]; [discriminate |]).
    by apply elem_of_nil in Hin. }
  split; [exact H1 |]. split; [exact H2 |]. split; [exact H3 |].
  exact (empty_selection_ends_quietly net [] url "out" true None w
           "acme/widgets" "main" "tests" example_tree H1 H2 H3).
Defined.

(** X6.  The handlers of [fetch_files] catch [aiohttp.ClientError] and
    nothing else: when the tree query raises another exception, it leaves
    [fetch_files] and [main], and the exit status is 1. *)
Theorem tree_query_exception_escapes
    net sched url root_dir verify_ssl pat_token w rn br sub e :
  parse_github_url url = Returned (rn, br, sub) →
  let f := init rn br sub root_dir verify_ssl pat_token in
  api net (tree_request f) = Failure e →
  isinstance e ClientError = false →
  main net sched url root_dir verify_ssl pat_token w
  = (Raised e, sent (tree_request f) w)
  ∧ exit_status (main net sched url root_dir verify_ssl pat_token w).1 = 1%Z.
Proof.
  intros Hparse f Hapi He.
  assert (main net sched url root_dir verify_ssl pat_token w
          = (Raised e, sent (tree_request f) w)) as Hrun.
  { unfold main. rewrite Hparse. fold f. rewrite fetch_files_unfold. simpl.
    rewrite Hapi. unfold handled. by rewrite He. }
  split; [exact Hrun | by rewrite Hrun].
Qed.

Lemma tree_query_exception_escapes_witness :
  let e := Exn TimeoutError "" in
  let net := Network (λ _, Failure e) (λ _, Response 200 "text") in
  let url := "https://github.com/acme/widgets/tree/main/src" in
  let w := World ∅ ∅ [] [] in
  let f := init "acme/widgets" "main" "src" "out" true None in
  parse_github_url url = Returned ("acme/widgets", "main", "src")
  ∧ api net (tree_request f) = Failure e
  ∧ isinstance e ClientError = false
  ∧ main net [] url "out" true None w = (Raised e, sent (tree_request f) w)
  ∧ exit_status (main net [] url "out" true None w).1 = 1%Z.
Proof.
  intros e net url w f.
  assert (parse_github_url url = Returned ("acme/widgets", "main", "src")) as H1
    by (vm_compute; reflexivity).
  assert (api net (tree_request f) = Failure e) as H2 by reflexivity.
  assert (isinstance e ClientError = false) as H3 by reflexivity.
  split; [exact H1 |]. split; [exact H2 |]. split; [exact H3 |].
  exact (tree_query_exception_escapes net [] url "out" true None w
           "acme/widgets" "main" "src" e H1 H2 H3).
Defined.

(** ** The record of a batch: requests and diagnostics *)

Lemma same_config f g :
  with_progress_bar None f = with_progress_bar None g →
  (∀ p, file_request f p = file_request g p)
  ∧ (∀ p, raw_url f p = raw_url g p)
  ∧ tree_request f = tree_request g
  ∧ root_dir f = root_dir g ∧ total_files f = total_files g.
Proof.
  destruct f, g. unfold with_progress_bar, file_request, tree_request,
    raw_url, tree_url. simpl. intros H. injection H. intros. by subst.
Qed.

Lemma get_file_content_log net filepath st content st' :
  get_file_content net filepath st = (Returned content, st') →
  answered (answer net (self st) filepath)
  ∧ requests (env st') = file_request (self st) filepath :: requests (env st)
  ∧ stdout (env st') = stdout (env st) ++ complaint net (self st) filepath.
Proof.
  rewrite get_file_content_unfold. unfold answered, complaint, answer. simpl.
  destruct (raw net _) as [status body | e].
  - case_bool_decide; intros [= <- <-]; simpl; by rewrite ?app_nil_r.
  - destruct (isinstance e ClientError); [| done]. by intros [= <- <-].
Qed.

(** Saving and counting neither print nor send anything, however they
    end. *)
Lemma save_file_content_log filepath content st r st' :
  save_file_content filepath content st = (r, st') →
  stdout (env st') = stdout (env st) ∧ requests (env st') = requests (env st).
Proof.
  rewrite save_file_content_unfold. simpl.
  repeat case_bool_decide; by intros [= <- <-].
Qed.

Lemma process_file_resume_log it content st r st' :
  process_file_resume it content st = (r, st') →
  stdout (env st') = stdout (env st) ∧ requests (env st') = requests (env st).
Proof.
  rewrite process_file_resume_unfold.
  assert (∀ st1,
            stdout (env st1) = stdout (env st)
            ∧ requests (env st1) = requests (env st) →
            match progress_bar_update 1 st1 with
            | (Returned _, st2) => (Returned true, st2)
            | (Raised e, st2) => (Raised e, st2)
            end = (r, st') →
            stdout (env st') = stdout (env st)
            ∧ requests (env st') = requests (env st)) as Hupd.
  { intros st1 Hlog. rewrite progress_bar_update_unfold.
    by destruct (progress_bar (self st1)); intros [= <- <-]. }
  destruct (truthy content); simpl; [| by apply Hupd].
  destruct (save_file_content _ _ _) as [[[] | e] st1] eqn:Hsave;
    apply save_file_content_log in Hsave.
  - by apply Hupd.
  - by intros [= <- <-].
Qed.

Lemma per_started_pending {B} (g : item → list B) (items : list item) :
  per_started g (map Pending items) items = [].
Proof. induction items; simpl; auto. Qed.

Lemma per_started_start {B} (g : item → list B) tasks items i t t' it :
  tasks !! i = Some t → items !! i = Some it →
  is_pending t = true → is_pending t' = false →
  per_started g (<[i := t']> tasks) items ≡ₚ g it ++ per_started g tasks items.
Proof.
  revert i items. induction tasks as [|t0 tasks IH]; intros i items; [done |].
  destruct items as [|it0 items]; [done |].
  destruct i as [|i]; simpl.
  - intros [= ->] [= ->] -> ->. done.
  - intros Hi Hit Ht Ht'. rewrite (IH i items Hi Hit Ht Ht').
    by rewrite !(assoc_L (++)), (comm (++) (g it)).
Qed.

Lemma per_started_keep {B} (g : item → list B) tasks items i t t' :
  tasks !! i = Some t → is_pending t = is_pending t' →
  per_started g (<[i := t']> tasks) items = per_started g tasks items.
Proof.
  revert i items. induction tasks as [|t0 tasks IH]; intros i items; [done |].
  destruct items as [|it0 items]; [by destruct i |].
  destruct i as [|i]; simpl.
  - by intros [= ->] ->.
  - intros Hi Ht. by rewrite (IH i items Hi Ht).
Qed.

Lemma per_started_settled {B} (g : item → list B) tasks items :
  length tasks = length items → Forall (λ t, rank t = 2) tasks →
  per_started g tasks items = flat_map g items.
Proof.
  revert items. induction tasks as [|t tasks IH]; intros [|it items]; try done.
  simpl. intros [= Hlen] [Ht Hall]%Forall_cons.
  rewrite (IH items Hlen Hall). by destruct t.
Qed.

Lemma log_inv_init net st (items : list item) :
  log_inv net (with_total_files (length items) (self st)) items
    (sent (tree_request (self st)) (env st))
    (map Pending items) (batch_start st items).
Proof.
  split; [done |]. split; [| split].
  - apply Forall2_fmap_l, Forall_Forall2_diag, Forall_forall. by intros it _.
  - by rewrite per_started_pending.
  - by rewrite per_started_pending, app_nil_r.
Qed.

(** A turn that returns keeps the record. *)
Lemma turn_log net f items w0 i tasks st tasks' st' :
  log_inv net f items w0 tasks st →
  turn net i tasks st = (Returned tasks', st') →
  log_inv net f items w0 tasks' st'.
Proof.
  intros (Hself & Hal & Hreq & Hout) Hturn.
  pose proof (turn_self _ _ _ _ _ _ Hturn) as Hself'.
  rewrite Hself in Hself'.
  destruct (same_config _ _ Hself) as (Hfr & Hurl & _).
  revert Hturn. rewrite turn_unfold.
  destruct (tasks !! i) as [t |] eqn:Hi; [| by intros [= <- <-]].
  destruct (Forall2_lookup_l _ _ _ _ _ Hal Hi) as (it & Hit & Ha).
  assert (∀ t', started_for net f t' it →
            Forall2 (started_for net f) (<[i := t']> tasks) items) as Hal'.
  { intros t' Ht'. rewrite <- (list_insert_id items i it Hit).
    by apply Forall2_insert. }
  destruct t as [it' | it' content | r]; simpl in Ha.
  - subst it'.
    destruct (get_file_content _ _ _) as [[content | e] st1] eqn:Hget; [| done].
    apply get_file_content_log in Hget as (Hans & Hreq1 & Hout1).
    intros [= <- <-].
    assert (answer net (self st) (path it) = answer net f (path it)) as Hanswer
      by (unfold answer; by rewrite Hfr).
    assert (complaint net (self st) (path it) = complaint net f (path it))
      as Hcomplaint by (unfold complaint; by rewrite Hanswer, Hurl).
    rewrite Hanswer in Hans. rewrite Hfr in Hreq1. rewrite Hcomplaint in Hout1.
    split; [done |]. split; [by apply Hal' |]. split.
    + rewrite Hreq1, Hreq.
      by rewrite (per_started_start _ tasks items i (Pending it)
                    (Fetched it content) it).
    + rewrite Hout1, Hout.
      rewrite (per_started_start _ tasks items i (Pending it)
                 (Fetched it content) it) by done.
      by rewrite <- !(assoc_L (++)), (comm (++) (complaint net f (path it))).
  - destruct Ha as [-> Hans].
    destruct (process_file_resume _ _ _) as [[r | e] st1] eqn:Hres; [| done].
    apply process_file_resume_log in Hres as [Hout1 Hreq1].
    intros [= <- <-].
    split; [done |]. split; [by apply Hal' |].
    rewrite Hreq1, Hout1.
    by rewrite !(per_started_keep _ tasks items i (Fetched it content) (Done r)).
  - by intros [= <- <-].
Qed.

Lemma turns_log net f items w0 sched tasks st tasks' st' :
  log_inv net f items w0 tasks st →
  turns net sched tasks st = (Returned tasks', st') →
  log_inv net f items w0 tasks' st'.
Proof.
  revert tasks st. induction sched as [|i sched IH]; intros tasks st Hinv.
  - by intros [= <- <-].
  - rewrite turns_cons.
    destruct (turn net i tasks st) as [[tasks1 | e] st1] eqn:Hturn; [| done].
    apply IH. by eapply turn_log.
Qed.

(** [fetch_files] after a listing with files to fetch: the batch, then the
    closing of the progress bar. *)
Lemma fetch_files_batch net sched st tree :
  let items := files_to_fetch (subfolder (self st)) tree in
  api net (tree_request (self st)) = Response 200 tree →
  items ≠ [] →
  fetch_files net sched st
  = match turns net (sched ++ settle (length (map Pending items)))
            (map Pending items) (batch_start st items) with
    | (Returned _, st3) =>
        match progress_bar_close st3 with
        | (Raised e, st4) => handled e st4
        | r => r
        end
    | (Raised e, st3) => handled e st3
    end.
Proof.
  intros items Hapi Hne. rewrite fetch_files_unfold. simpl. rewrite Hapi.
  rewrite bool_decide_eq_true_2 by done.
  fold items. rewrite bool_decide_eq_false_2 by (by destruct items).
  rewrite gather_unfold. unfold batch_start.
  by destruct (turns _ _ _ _) as [[tasks' | e] st3].
Qed.

Lemma flat_map_singleton {A B} (g : A → B) (l : list A) :
  flat_map (λ x, [g x]) l = map g l.
Proof. induction l; simpl; congruence. Qed.

(** When [fetch_files] returns after a listing with files to fetch, the
    batch has run to its end, and closing the bar has changed nothing
    outside the fetcher. *)
Lemma fetch_files_returned net sched st tree st' :
  let items := files_to_fetch (subfolder (self st)) tree in
  api net (tree_request (self st)) = Response 200 tree →
  items ≠ [] →
  fetch_files net sched st = (Returned tt, st') →
  ∃ tasks' st3,
    turns net (sched ++ settle (length (map Pending items)))
      (map Pending items) (batch_start st items) = (Returned tasks', st3)
    ∧ env st' = env st3.
Proof.
  intros items Hapi Hne. rewrite (fetch_files_batch net sched st tree Hapi Hne).
  fold items.
  destruct (turns _ _ _ _) as [[tasks' | e] st3] eqn:Hturns.
  - rewrite progress_bar_close_unfold.
    destruct (progress_bar (self st3)).
    + intros [= <-]. by eexists _, _.
    + by unfold handled.
  - apply turns_raises in Hturns. unfold handled. by rewrite Hturns.
Qed.

(** X7.  One request for each file, and no other: when [fetch_files]
    returns after a listing with files to fetch, the requests it has sent
    are the tree query and exactly one request for each selected entry, in
    the order the loop took them up; none is repeated, and no entry that
    was not selected is asked for. *)
Theorem one_request_per_selected_file net sched st tree st' :
  let f := self st in
  let items := files_to_fetch (subfolder f) tree in
  api net (tree_request f) = Response 200 tree →
  items ≠ [] →
  fetch_files net sched st = (Returned tt, st') →
  requests (env st')
  ≡ₚ map (λ it, file_request f (path it)) items
     ++ tree_request f :: requests (env st).
Proof.
  intros f items Hapi Hne Hrun.
  destruct (fetch_files_returned net sched st tree st' Hapi Hne Hrun)
    as (tasks' & st3 & Hturns & ->).
  pose proof (turns_log _ _ _ _ _ _ _ _ _ (log_inv_init net st items) Hturns)
    as (_ & _ & Hreq & _).
  destruct (turns_settled _ _ _ _ _ _ Hturns) as [Hlen Hall].
  rewrite length_map in Hlen.
  rewrite per_started_settled, flat_map_singleton in Hreq by done.
  exact Hreq.
Qed.

(** X8.  One line for each failed fetch, and no other: when [fetch_files]
    returns after a listing with files to fetch, what it has printed is
    one diagnostic for each selected entry whose request was not answered
    with status 200, and nothing for the others, a 200 with an empty body
    included. *)
Theorem one_diagnostic_per_failed_fetch net sched st tree st' :
  let f := self st in
  let items := files_to_fetch (subfolder f) tree in
  api net (tree_request f) = Response 200 tree →
  items ≠ [] →
  fetch_files net sched st = (Returned tt, st') →
  stdout (env st')
  ≡ₚ stdout (env st) ++ flat_map (λ it, complaint net f (path it)) items.
Proof.
  intros f items Hapi Hne Hrun.
  destruct (fetch_files_returned net sched st tree st' Hapi Hne Hrun)
    as (tasks' & st3 & Hturns & ->).
  pose proof (turns_log _ _ _ _ _ _ _ _ _ (log_inv_init net st items) Hturns)
    as (_ & _ & _ & Hout).
  destruct (turns_settled _ _ _ _ _ _ Hturns) as [Hlen Hall].
  rewrite length_map in Hlen.
  rewrite per_started_settled in Hout by done.
  exact Hout.
Qed.

(** X9.  An exception of a file request that is not a [ClientError] is
    not contained: when some selected entry's request fails with one,
    [fetch_files] never returns normally, under any interleaving; it
    raises an exception that is not a [ClientError]. *)
Theorem unanswered_request_aborts net sched st tree :
  let f := self st in
  let items := files_to_fetch (subfolder f) tree in
  api net (tree_request f) = Response 200 tree →
  items ≠ [] →
  Exists (λ it, ¬ answered (answer net f (path it))) items →
  ∃ e st', fetch_files net sched st = (Raised e, st')
           ∧ isinstance e ClientError = false.
Proof.
  intros f items Hapi Hne Hex.
  rewrite (fetch_files_batch net sched st tree Hapi Hne). fold items.
  destruct (turns _ _ _ _) as [[tasks' | e] st3] eqn:Hturns.
  - exfalso.
    pose proof (turns_log _ _ _ _ _ _ _ _ _ (log_inv_init net st items) Hturns)
      as (_ & Hal & _).
    destruct (turns_settled _ _ _ _ _ _ Hturns) as [_ Hall].
    apply Exists_exists in Hex as (it & [i Hi]%list_elem_of_lookup & Hno).
    destruct (Forall2_lookup_r _ _ _ _ _ Hal Hi) as (t & Hti & Hstarted).
    rewrite Forall_lookup in Hall. specialize (Hall _ _ Hti).
    destruct t; try discriminate. by apply Hno.
  - pose proof (turns_raises _ _ _ _ _ _ Hturns) as He.
    exists e, st3. unfold handled. by rewrite He.
Qed.

Lemma demo_run_returns :
  ∃ st', fetch_files demo_net [1; 0; 1] demo_state = (Returned tt, st').
Proof. eexists. vm_compute. reflexivity. Qed.

Lemma one_request_per_selected_file_witness :
  let f := self demo_state in
  let items := files_to_fetch (subfolder f) example_tree in
  api demo_net (tree_request f) = Response 200 example_tree
  ∧ items ≠ []
  ∧ ∃ st',
      fetch_files demo_net [1; 0; 1] demo_state = (Returned tt, st')
      ∧ requests (env st')
        ≡ₚ map (λ it, file_request f (path it)) items
           ++ tree_request f :: requests (env demo_state).
Proof.
  intros f items.
  assert (api demo_net (tree_request f) = Response 200 example_tree) as H1
    by reflexivity.
  assert (items ≠ []) as H2 by (vm_compute; discriminate).
  destruct demo_run_returns as [st' H3].
  split; [exact H1 |]. split; [exact H2 |]. exists st'. split; [exact H3 |].
  exact (one_request_per_selected_file demo_net [1; 0; 1] demo_state
           example_tree st' H1 H2 H3).
Defined.

Lemma one_diagnostic_per_failed_fetch_witness :
  let f := self demo_state in
  let items := files_to_fetch (subfolder f) example_tree in
  api demo_net (tree_request f) = Response 200 example_tree
  ∧ items ≠ []
  ∧ ∃ st',
      fetch_files demo_net [1; 0; 1] demo_state = (Returned tt, st')
      ∧ stdout (env st')
        ≡ₚ stdout (env demo_state)
           ++ flat_map (λ it, complaint demo_net f (path it)) items.
Proof.
  intros f items.
  assert (api demo_net (tree_request f) = Response 200 example_tree) as H1
    by reflexivity.
  assert (items ≠ []) as H2 by (vm_compute; discriminate).
  destruct demo_run_returns as [st' H3].
  split; [exact H1 |]. split; [exact H2 |]. exists st'. split; [exact H3 |].
  exact (one_diagnostic_per_failed_fetch demo_net [1; 0; 1] demo_state
           example_tree st' H1 H2 H3).
Defined.

Lemma unanswered_request_aborts_witness :
  let net :=
    Network (λ _, Response 200 example_tree)
            (demo_answer (Failure (Exn TimeoutError ""))) in
  let f := self demo_state in
  let items := files_to_fetch (subfolder f) example_tree in
  api net (tree_request f) = Response 200 example_tree
  ∧ items ≠ []
  ∧ Exists (λ it, ¬ answered (answer net f (path it))) items
  ∧ ∃ e st', fetch_files net [1; 0; 1] demo_state = (Raised e, st')
             ∧ isinstance e ClientError = false.
Proof.
  intros net f items.
  assert (api net (tree_request f) = Response 200 example_tree) as H1
    by reflexivity.
  assert (items ≠ []) as H2 by (vm_compute; discriminate).
  assert (Exists (λ it, ¬ answered (answer net f (path it))) items) as H3.
  { assert (items = [Item "src/a.py" "blob"; Item "src/lib/b.py" "blob"]) as ->
      by (vm_compute; reflexivity).
    apply Exists_cons_hd. vm_compute. discriminate. }
  split; [exact H1 |]. split; [exact H2 |]. split; [exact H3 |].
  exact (unanswered_request_aborts net [1; 0; 1] demo_state example_tree
           H1 H2 H3).
Defined.

(** ** What a run sends *)

Lemma get_file_content_requests net filepath st r st' :
  get_file_content net filepath st = (r, st') →
  requests (env st') = file_request (self st) filepath :: requests (env st).
Proof.
  rewrite get_file_content_unfold. simpl.
  destruct (raw net _) as [status body | e].
  - case_bool_decide; by intros [= <- <-].
  - destruct (isinstance e ClientError); by intros [= <- <-].
Qed.

Lemma turn_requests net f i tasks st r st' :
  with_progress_bar None (self st) = with_progress_bar None f →
  turn net i tasks st = (r, st') →
  ∃ new, requests (env st') = new ++ requests (env st)
         ∧ Forall (λ rq, ∃ p, rq = file_request f p) new.
Proof.
  intros Hself. destruct (same_config _ _ Hself) as (Hfr & _).
  rewrite turn_unfold.
  destruct (tasks !! i) as [[it | it content | r0] |];
    try (intros [= <- <-]; by exists []).
  - destruct (get_file_content _ _ _) as [[content | e] st1] eqn:Hget;
      apply get_file_content_requests in Hget; rewrite Hfr in Hget;
      intros [= <- <-]; exists [file_request f (path it)];
      (split; [done |]); repeat constructor; by eexists.
  - destruct (process_file_resume _ _ _) as [[r1 | e] st1] eqn:Hres;
      apply process_file_resume_log in Hres as [_ Hreq];
      intros [= <- <-]; by exists [].
Qed.

Lemma turns_requests net f sched tasks st r st' :
  with_progress_bar None (self st) = with_progress_bar None f →
  turns net sched tasks st = (r, st') →
  ∃ new, requests (env st') = new ++ requests (env st)
         ∧ Forall (λ rq, ∃ p, rq = file_request f p) new.
Proof.
  revert tasks st. induction sched as [|i sched IH]; intros tasks st Hself.
  - intros [= <- <-]. by exists [].
  - rewrite turns_cons.
    destruct (turn net i tasks st) as [[tasks1 | e] st1] eqn:Hturn.
    + pose proof (turn_self _ _ _ _ _ _ Hturn) as Hself1.
      rewrite Hself in Hself1.
      destruct (turn_requests _ _ _ _ _ _ _ Hself Hturn) as (new1 & Hreq1 & Hall1).
      intros Hrest.
      destruct (IH _ _ Hself1 Hrest) as (new2 & Hreq2 & Hall2).
      exists (new2 ++ new1). rewrite Hreq2, Hreq1, (assoc_L (++)).
      split; [done |]. by apply Forall_app.
    + intros [= <- <-]. by eapply turn_requests.
Qed.

Lemma handled_requests e st :
  requests (env (handled e st).2) = requests (env st).
Proof. unfold handled. by destruct (isinstance e ClientError). Qed.

(** Whatever the outcome of [fetch_files], what it has sent is the tree
    query and requests for files, all of them made by this fetcher. *)
Lemma fetch_files_requests net sched st r st' :
  fetch_files net sched st = (r, st') →
  ∃ new, requests (env st') = new ++ requests (env st)
         ∧ Forall (λ rq, rq = tree_request (self st)
                         ∨ ∃ p, rq = file_request (self st) p) new.
Proof.
  assert (∀ e st0,
            requests (env st0) = tree_request (self st) :: requests (env st) →
            handled e st0 = (r, st') →
            ∃ new, requests (env st') = new ++ requests (env st)
                   ∧ Forall (λ rq, rq = tree_request (self st)
                                   ∨ ∃ p, rq = file_request (self st) p) new)
    as Hhandled.
  { intros e st0 Hreq Hh. exists [tree_request (self st)].
    pose proof (handled_requests e st0) as Hr. rewrite Hh in Hr. simpl in Hr.
    rewrite Hr, Hreq. split; [done |]. by repeat constructor. }
  rewrite fetch_files_unfold. simpl.
  destruct (api net _) as [status tree | e]; [| by apply Hhandled].
  case_bool_decide.
  2:{ intros [= <- <-]. exists [tree_request (self st)].
      split; [done |]. by repeat constructor. }
  case_bool_decide.
  { intros [= <- <-]. exists [tree_request (self st)].
    split; [done |]. by repeat constructor. }
  rewrite gather_unfold.
  set (items := files_to_fetch (subfolder (self st)) tree).
  destruct (turns _ _ _ _) as [[tasks' | e] st3] eqn:Hturns;
    pose proof Hturns as Hsent;
    apply (turns_requests net (with_total_files (length items) (self st)))
      in Hsent as (new & Hreq & Hall); try reflexivity;
    simpl in Hreq.
  - assert (∃ new', requests (env st3) = new' ++ requests (env st)
                    ∧ Forall (λ rq, rq = tree_request (self st)
                                    ∨ ∃ p, rq = file_request (self st) p) new')
      as Hst3.
    { exists (new ++ [tree_request (self st)]).
      rewrite Hreq, <- (assoc_L (++)). split; [done |].
      apply Forall_app. split; [| repeat constructor; by left].
      eapply Forall_impl; [done |]. intros rq [p ->]. right. by exists p. }
    rewrite progress_bar_close_unfold.
    destruct (progress_bar (self st3)); [by intros [= <- <-] |].
    unfold handled. simpl. by intros [= <- <-].
  - intros Hh.
    pose proof (handled_requests e st3) as Hr. rewrite Hh in Hr. simpl in Hr.
    exists (new ++ [tree_request (self st)]).
    rewrite Hr, Hreq, <- (assoc_L (++)). split; [done |].
    apply Forall_app. split; [| repeat constructor; by left].
    eapply Forall_impl; [done |]. intros rq [p ->]. right. by exists p.
Qed.

(** X10.  Whatever the URL, the answers and the outcome of a run, every
    request it sends goes to [api.github.com] or
    [raw.githubusercontent.com], carries the TLS flag given to [main], and
    carries the token as its [Authorization] header when a non-empty token
    was given, and no header otherwise. *)
Theorem every_request_is_configured
    net sched url root_dir verify_ssl pat_token w :
  ∃ new,
    requests (main net sched url root_dir verify_ssl pat_token w).2
    = new ++ requests w
    ∧ Forall (github_request verify_ssl pat_token) new.
Proof.
  unfold main.
  destruct (parse_github_url url) as [[[rn br] sub] | e]; [| by exists []].
  set (f := init rn br sub root_dir verify_ssl pat_token).
  destruct (fetch_files net sched (State f w)) as [r st'] eqn:Hrun.
  destruct (fetch_files_requests _ _ _ _ _ Hrun) as (new & Hreq & Hall).
  exists new. split; [done |].
  eapply Forall_impl; [done |]. simpl.
  intros rq [-> | [p ->]]; (split; [done |]); (split; [done |]).
  - left. by eexists.
  - right. by eexists.
Qed.

(** ** The Persistence Writer: writing again, and not writing *)

Section WriterMore.

#[local] Arguments String.append !_ _ / : simpl nomatch.

(** Splitting and joining again gives the string back. *)
Lemma join_split c (s : string) :
  Str.join (String c "") (Str.split c s) = s.
Proof.
  induction s as [|a s IH]; [done |]. simpl Str.split.
  pose proof (split_not_nil c s) as Hne.
  destruct (Ascii.eqb a c) eqn:E.
  - apply Ascii.eqb_eq in E as ->.
    destruct (Str.split c s) as [|w ws]; [done |].
    rewrite join_cons, IH. done.
  - destruct (Str.split c s) as [|w ws]; [done |].
    destruct ws as [|w' ws]; simpl in *; by rewrite <- IH.
Qed.

(** A directory is the last of the directories it needs. *)
Lemma dirname_in_lineage (d : string) : d ≠ "" → d ∈ OsPath.lineage d.
Proof.
  intros Hd. unfold OsPath.lineage.
  apply list_elem_of_filter. split; [done |].
  apply list_elem_of_fmap. exists (length (Str.split "/" d)). split.
  - by rewrite firstn_all, join_split.
  - apply elem_of_seq. pose proof (split_not_nil "/" d).
    destruct (Str.split "/" d); simpl; [done | lia].
Qed.

End WriterMore.



Lemma get_file_content_fetched net it st content st' :
  get_file_content net (path it) st = (Returned content, st') →
  content = fetched net (self st) it.
Proof.
  rewrite get_file_content_unfold. unfold fetched, answer. simpl.
  destruct (raw net _) as [status body | e].
  - case_bool_decide; by intros [= <- <-].
  - destruct (isinstance e ClientError); [| done]. by intros [= <- <-].
Qed.

(** X12.  Without content nothing is written: when the answer for a file
    is anything but a 200 with a non-empty body (another status, a failed
    request, or an empty body), [process_file] creates no file and no
    directory, however it ends.  An empty remote file is thus never created
    locally. *)
Theorem nothing_saved_without_content net it st r st' :
  truthy (fetched net (self st) it) = false →
  process_file net it st = (r, st') →
  files (env st') = files (env st) ∧ dirs (env st') = dirs (env st).
Proof.
  intros Hfalsy. rewrite process_file_unfold.
  destruct (get_file_content _ _ _) as [[content | e] st1] eqn:Hget.
  - pose proof (get_file_content_fetched _ _ _ _ _ Hget) as ->.
    apply get_file_content_frame in Hget as (_ & Hf & Hd).
    rewrite process_file_resume_unfold, Hfalsy. simpl.
    rewrite progress_bar_update_unfold.
    destruct (progress_bar (self st1)); by intros [= <- <-].
  - apply get_file_content_frame in Hget as (_ & Hf & Hd). by intros [= <- <-].
Qed.

Lemma nothing_saved_without_content_witness :
  let net := Network (λ _, Response 200 example_tree) (λ _, Response 200 "") in
  let it := Item "src/empty.txt" "blob" in
  let st := State (with_progress_bar (Some (Tqdm 1 0 false)) (self demo_state))
              (env demo_state) in
  truthy (fetched net (self st) it) = false
  ∧ ∃ st', process_file net it st = (Returned true, st')
           ∧ files (env st') = files (env st) ∧ dirs (env st') = dirs (env st).
Proof.
  intros net it st.
  assert (truthy (fetched net (self st) it) = false) as H1 by reflexivity.
  assert (∃ st', process_file net it st = (Returned true, st')) as [st' H2]
    by (eexists; vm_compute; reflexivity).
  split; [exact H1 |]. exists st'. split; [exact H2 |].
  exact (nothing_saved_without_content net it st _ st' H1 H2).
Defined.



(** ** Running again *)

(** What a turn that returns does to the files: nothing, or it puts the
    content its task holds at the destination of its entry. *)
Lemma turn_files net i tasks st tasks' st' :
  turn net i tasks st = (Returned tasks', st') →
  files (env st') = files (env st)
  ∨ ∃ it c,
      tasks !! i = Some (Fetched it (Some c)) ∧ c ≠ ""
      ∧ files (env st')
        = <[destination (self st) (path it) := c]> (files (env st)).
Proof.
  rewrite turn_unfold.
  destruct (tasks !! i) as [[it | it content | r] |];
    try (intros [= <- <-]; by left).
  - destruct (get_file_content _ _ _) as [[content | e] st1] eqn:Hget; [| done].
    apply get_file_content_frame in Hget as (_ & Hf & _).
    intros [= <- <-]. by left.
  - rewrite process_file_resume_unfold.
    destruct content as [[|a c] |]; simpl.
    + rewrite progress_bar_update_unfold.
      destruct (progress_bar (self st)); [| done]. intros [= <- <-]. by left.
    + destruct (save_file_content _ _ _) as [[[] | e] st1] eqn:Hsave; [| done].
      apply save_file_content_files in Hsave as [_ Hf].
      rewrite progress_bar_update_unfold.
      destruct (progress_bar (self st1)); [| done]. intros [= <- <-].
      right. exists it, (String a c). by repeat split.
    + rewrite progress_bar_update_unfold.
      destruct (progress_bar (self st)); [| done]. intros [= <- <-]. by left.
Qed.

Lemma turn_untouched net f items w0 i tasks st tasks' st' :
  batch_inv net f items w0 tasks st →
  untouched net f items w0 st →
  turn net i tasks st = (Returned tasks', st') →
  untouched net f items w0 st'.
Proof.
  intros ([bar Hself] & Hal & _) Hun Hturn p Hp.
  destruct (turn_files _ _ _ _ _ _ Hturn) as [-> | (it & c & Hi & Hc & ->)];
    [by apply Hun |].
  destruct (Forall2_lookup_l _ _ _ _ _ Hal Hi) as (it0 & Hit & Ha).
  destruct Ha as [Ha | [Ha | Ha]]; try discriminate.
  injection Ha as -> Hfetched.
  rewrite Hself.
  change (destination (with_progress_bar (Some bar) f) (path it0))
    with (destination f (path it0)).
  rewrite lookup_insert_ne; [by apply Hun |].
  intros Heq.
  pose proof (Hp it0 (list_elem_of_lookup_2 _ _ _ Hit) Heq) as Hfalse.
  rewrite <- Hfetched in Hfalse. by destruct c.
Qed.

Section Rerun.

Variables (net : network) (f : GithubFetcher) (items : list item) (w0 : world).

Hypothesis Hanswered : Forall (λ it, answered (answer net f (path it))) items.
Hypothesis Hrelative : Forall (λ it, relative (path it)) items.
Hypothesis Hbenign : benign w0 (destinations f items).

Lemma turns_inv_untouched sched tasks st :
  batch_inv net f items w0 tasks st →
  untouched net f items w0 st →
  ∃ tasks' st', turns net sched tasks st = (Returned tasks', st')
                ∧ batch_inv net f items w0 tasks' st'
                ∧ untouched net f items w0 st'.
Proof.
  revert tasks st. induction sched as [|i sched IH]; intros tasks st Hinv Hun.
  - by eexists _, _.
  - rewrite turns_cons.
    destruct (turn_inv net f items w0 Hanswered Hrelative Hbenign i tasks st Hinv)
      as (tasks1 & st1 & Hturn & Hinv1).
    pose proof (turn_untouched _ _ _ _ _ _ _ _ _ Hinv Hun Hturn) as Hun1.
    rewrite Hturn. by apply IH.
Qed.

End Rerun.

(** A whole batch on a benign file system: [fetch_files] returns; the
    content of every entry that has any is in its file; no other file has
    changed; and every directory is an old one or one made for a
    destination. *)
Lemma fetch_files_completes net sched st tree :
  let f := self st in
  let items := files_to_fetch (subfolder f) tree in
  api net (tree_request f) = Response 200 tree →
  items ≠ [] →
  Forall (λ it, answered (answer net f (path it))) items →
  Forall (λ it, relative (path it)) items →
  benign (env st) (destinations f items) →
  ∃ st',
    fetch_files net sched st = (Returned tt, st')
    ∧ (∀ it body, it ∈ items → fetched net f it = Some body → body ≠ "" →
         files (env st') !! destination f (path it) = Some body)
    ∧ untouched net f items (env st) st'
    ∧ (∀ d, d ∈ dirs (env st') →
         d ∈ dirs (env st)
         ∨ ∃ q, q ∈ destinations f items
                ∧ d ∈ OsPath.lineage (OsPath.dirname q)).
Proof.
  intros f items Hapi Hne Hanswered Hrelative Hbenign.
  set (fb := with_total_files (length items) f).
  destruct (turns_inv_untouched net fb items (env st) Hanswered Hrelative Hbenign
              (sched ++ settle (length (map Pending items)))
              (map Pending items) (batch_start st items))
    as (tasks' & st3 & Hturns & Hinv & Hun).
  { by apply batch_inv_init. }
  { intros p _. done. }
  destruct (turns_settled _ _ _ _ _ _ Hturns) as [_ Hall].
  destruct (turns_counter net _ _ (batch_start st items) tasks' st3 _ eq_refl Hturns)
    as (bar3 & Hbar3 & _).
  destruct Hinv as (_ & Hal & Hpers & _ & Hdirs).
  pose proof (fetch_files_batch net sched st tree Hapi Hne) as Hrun.
  cbv zeta in Hrun. fold f in Hrun. fold items in Hrun.
  rewrite Hrun, Hturns, progress_bar_close_unfold, Hbar3.
  eexists. split; [done |]. simpl. split; [| split; [exact Hun | exact Hdirs]].
  intros it body [i Hi]%list_elem_of_lookup Hfetched Hbody.
  destruct (Forall2_lookup_r _ _ _ _ _ Hal Hi) as (t & Hti & Halign).
  rewrite Forall_lookup in Hall. specialize (Hall _ _ Hti).
  destruct Halign as [-> | [-> | ->]]; try discriminate.
  by apply (Hpers i it body Hi Hti).
Qed.


Lemma demo_batch :
  let f := self demo_state in
  let items := files_to_fetch (subfolder f) example_tree in
  api demo_net (tree_request f) = Response 200 example_tree
  ∧ items ≠ []
  ∧ Forall (λ it, answered (answer demo_net f (path it))) items
  ∧ Forall (λ it, relative (path it)) items
  ∧ benign (env demo_state) (destinations f items).
Proof.
  intros f items.
  assert (items = [Item "src/a.py" "blob"; Item "src/lib/b.py" "blob"]) as Hitems
    by (vm_compute; reflexivity).
  split; [reflexivity |]. split; [rewrite Hitems; discriminate |].
  split; [rewrite Hitems; repeat constructor |].
  split; [rewrite Hitems; repeat constructor |].
  assert (destinations f items = ["out/src/a.py"; "out/src/lib/b.py"]) as ->
    by (vm_compute; reflexivity).
  assert (ancestors "out/src/a.py" = ["out/src"; "out"; "out/src"]) as Ea
    by (vm_compute; reflexivity).
  assert (ancestors "out/src/lib/b.py"
          = ["out/src/lib"; "out"; "out/src"; "out/src/lib"]) as Eb
    by (vm_compute; reflexivity).
  unfold benign. rewrite !Forall_cons, Ea, Eb, !Forall_cons.
  repeat split; try apply Forall_nil; try apply not_elem_of_empty;
    try apply lookup_empty; try not_in_list; by vm_compute.
Qed.


(** ** The interleaving of the tasks *)

Lemma fetch_files_log net sched st tree st' :
  let f := self st in
  let items := files_to_fetch (subfolder f) tree in
  api net (tree_request f) = Response 200 tree →
  items ≠ [] →
  fetch_files net sched st = (Returned tt, st') →
  requests (env st')
  ≡ₚ map (λ it, file_request f (path it)) items
     ++ tree_request f :: requests (env st)
  ∧ stdout (env st')
    ≡ₚ stdout (env st) ++ flat_map (λ it, complaint net f (path it)) items.
Proof.
  intros f items Hapi Hne Hrun.
  destruct (fetch_files_returned net sched st tree st' Hapi Hne Hrun)
    as (tasks' & st3 & Hturns & ->).
  pose proof (turns_log _ _ _ _ _ _ _ _ _ (log_inv_init net st items) Hturns)
    as (_ & _ & Hreq & Hout).
  destruct (turns_settled _ _ _ _ _ _ Hturns) as [Hlen Hall].
  rewrite length_map in Hlen.
  rewrite per_started_settled in Hout by done.
  rewrite per_started_settled, flat_map_singleton in Hreq by done.
  by split.
Qed.



(** ** The Tree Resolver: narrowing the subfolder *)

Lemma startswith_app_l s p q :
  Str.startswith s (p +:+ q) = true → Str.startswith s p = true.
Proof.
  intros [rest ->]%startswith_spec. apply startswith_spec.
  exists (q +:+ rest). by rewrite app_assoc_str.
Qed.

(** X16.  A deeper subfolder selects less: whatever is selected for
    [sub/more...] is selected for [sub], in the same order, and selecting
    for the deeper subfolder within the selection for [sub] gives the same
    as selecting for it in the whole listing. *)
Theorem narrowing_the_subfolder sub more (tree : list item) :
  files_to_fetch (sub +:+ more) tree `sublist_of` files_to_fetch sub tree
  ∧ files_to_fetch (sub +:+ more) (files_to_fetch sub tree)
    = files_to_fetch (sub +:+ more) tree.
Proof.
  assert (files_to_fetch (sub +:+ more) (files_to_fetch sub tree)
          = files_to_fetch (sub +:+ more) tree) as Hsame.
  { rewrite !files_to_fetch_retained. apply list_filter_filter_l.
    intros it [Ht Hp]. split; [done |].
    apply startswith_spec. apply startswith_spec in Hp.
    by eapply startswith_app_l. }
  split; [| exact Hsame].
  rewrite <- Hsame, (files_to_fetch_retained (sub +:+ more)).
  apply sublist_filter.
Qed.
